(** * silexdata.mysql inventory plugin: a shallow embedding

    The development follows [plugins/inventory/inventory.py]: the class
    [InventoryModule] with its methods [verify_file], [parse],
    [_get_raw_hosts], [_populate] and [_add_host].  The Python runtime
    pieces the plugin relies on (values, truthiness, [str] methods,
    exceptions) come first, then the effect monad, the collaborators of
    the plugin, the plugin itself, and finally the statements proved
    about it. *)

From Stdlib Require Import ZArith NArith Ascii String List Lia.
From stdpp Require Import base decidable countable gmap strings list.

Local Open Scope string_scope.
Local Open Scope list_scope.

(** ** Python values and text *)

Module Py.

(** The text of a [str] value is its sequence of Unicode code points.
    Names that are only compared, joined and displayed (option and
    column names, group names, cache keys, file paths, messages) are
    kept as strings. *)
Definition text : Type := list N.

(** Text literals: the code points of the UTF-8 literal. *)
Inductive literal : Type :=
| LNil
| LCons (c : N) (l : literal).

Fixpoint utf8_decode (pending : N) (need : nat) (bs : list Byte.byte) : literal :=
  match bs with
  | [] => LNil
  | b :: bs' =>
      let n := Byte.to_N b in
      match need with
      | O =>
          if (n <? 128)%N then LCons n (utf8_decode 0 0 bs')
          else if (n <? 224)%N then utf8_decode (n - 192) 1 bs'
          else if (n <? 240)%N then utf8_decode (n - 224) 2 bs'
          else utf8_decode (n - 240) 3 bs'
      | S O => LCons (pending * 64 + (n - 128))%N (utf8_decode 0 0 bs')
      | S k => utf8_decode (pending * 64 + (n - 128))%N k bs'
      end
  end.

Definition literal_of_bytes (bs : list Byte.byte) : literal := utf8_decode 0 0 bs.

Definition bytes_of_literal (l : literal) : option (list Byte.byte) := None.

Declare Scope text_scope.
Delimit Scope text_scope with text.
Bind Scope text_scope with text.
#[warnings="-via-type-remapping,-via-type-mismatch"]
String Notation text literal_of_bytes bytes_of_literal
  (via literal mapping [[nil] => LNil, [cons] => LCons]) : text_scope.

(** The scalar values a result-set column or a configuration option can
    hold. *)
Inductive value : Type :=
| VNone
| VBool (b : bool)
| VInt (n : Z)
| VStr (s : text).

#[global] Instance value_eq_dec : EqDecision value.
Proof. solve_decision. Defined.

Definition value_to_sum (v : value) : unit + bool + Z + text :=
  match v with
  | VNone => inl (inl (inl tt))
  | VBool b => inl (inl (inr b))
  | VInt n => inl (inr n)
  | VStr s => inr s
  end.

Definition value_of_sum (x : unit + bool + Z + text) : value :=
  match x with
  | inl (inl (inl _)) => VNone
  | inl (inl (inr b)) => VBool b
  | inl (inr n) => VInt n
  | inr s => VStr s
  end.

#[global] Instance value_countable : Countable value.
Proof.
  apply (inj_countable' value_to_sum value_of_sum).
  intros []; reflexivity.
Defined.

(** [bool(v)]: what [if v:] tests. *)
Definition truthy (v : value) : bool :=
  match v with
  | VNone => false
  | VBool b => b
  | VInt n => negb (n =? 0)%Z
  | VStr s => match s with [] => false | _ :: _ => true end
  end.

(** [isinstance(v, str)] *)
Definition is_str (v : value) : bool :=
  match v with VStr _ => true | _ => false end.

(** [type(v).__name__] *)
Definition type_name (v : value) : string :=
  match v with
  | VNone => "NoneType"
  | VBool _ => "bool"
  | VInt _ => "int"
  | VStr _ => "str"
  end.

Local Open Scope N_scope.

(** [str.isspace] of one character: TAB, LF, VT, FF, CR, the
    separators FS, GS, RS, US, the space, NEL, the no-break space, the
    Ogham space mark, EN QUAD to HAIR SPACE, the line and paragraph
    separators, the narrow no-break space, the medium mathematical space
    and the ideographic space. *)
Definition isspace (c : N) : bool :=
  ((9 <=? c) && (c <=? 13)) || ((28 <=? c) && (c <=? 32)) || (c =? 133) || (c =? 160)
  || (c =? 5760) || ((8192 <=? c) && (c <=? 8202)) || (c =? 8232) || (c =? 8233)
  || (c =? 8239) || (c =? 8287) || (c =? 12288).

Fixpoint lstrip (s : text) : text :=
  match s with
  | [] => []
  | c :: s' => if isspace c then lstrip s' else s
  end.

Fixpoint rstrip (s : text) : text :=
  match s with
  | [] => []
  | c :: s' =>
      match rstrip s' with
      | [] => if isspace c then [] else [c]
      | r => c :: r
      end
  end.

(** [s.strip()] *)
Definition strip (s : text) : text := rstrip (lstrip s).

(** The upper-casing of the characters beyond ASCII, as the Unicode
    character database (version 14, the one of CPython 3.11) has it.
    [upper_special] lists the characters whose upper-casing is more
    than one character (SpecialCasing); [upper_simple] lists the
    others that change, by runs: first and last character of the run,
    the distance between two characters of the run, and the upper-case
    of the first, those of the others following at the same distance. *)
Definition upper_special : list (N * list N) :=
  [(223, [83; 83]); (329, [700; 78]); (496, [74; 780]); (912, [921; 776; 769]);
   (944, [933; 776; 769]); (1415, [1333; 1362]); (7830, [72; 817]); (7831, [84; 776]);
   (7832, [87; 778]); (7833, [89; 778]); (7834, [65; 702]); (8016, [933; 787]);
   (8018, [933; 787; 768]); (8020, [933; 787; 769]); (8022, [933; 787; 834]);
   (8064, [7944; 921]); (8065, [7945; 921]); (8066, [7946; 921]); (8067, [7947; 921]);
   (8068, [7948; 921]); (8069, [7949; 921]); (8070, [7950; 921]); (8071, [7951; 921]);
   (8072, [7944; 921]); (8073, [7945; 921]); (8074, [7946; 921]); (8075, [7947; 921]);
   (8076, [7948; 921]); (8077, [7949; 921]); (8078, [7950; 921]); (8079, [7951; 921]);
   (8080, [7976; 921]); (8081, [7977; 921]); (8082, [7978; 921]); (8083, [7979; 921]);
   (8084, [7980; 921]); (8085, [7981; 921]); (8086, [7982; 921]); (8087, [7983; 921]);
   (8088, [7976; 921]); (8089, [7977; 921]); (8090, [7978; 921]); (8091, [7979; 921]);
   (8092, [7980; 921]); (8093, [7981; 921]); (8094, [7982; 921]); (8095, [7983; 921]);
   (8096, [8040; 921]); (8097, [8041; 921]); (8098, [8042; 921]); (8099, [8043; 921]);
   (8100, [8044; 921]); (8101, [8045; 921]); (8102, [8046; 921]); (8103, [8047; 921]);
   (8104, [8040; 921]); (8105, [8041; 921]); (8106, [8042; 921]); (8107, [8043; 921]);
   (8108, [8044; 921]); (8109, [8045; 921]); (8110, [8046; 921]); (8111, [8047; 921]);
   (8114, [8122; 921]); (8115, [913; 921]); (8116, [902; 921]); (8118, [913; 834]);
   (8119, [913; 834; 921]); (8124, [913; 921]); (8130, [8138; 921]); (8131, [919; 921]);
   (8132, [905; 921]); (8134, [919; 834]); (8135, [919; 834; 921]); (8140, [919; 921]);
   (8146, [921; 776; 768]); (8147, [921; 776; 769]); (8150, [921; 834]);
   (8151, [921; 776; 834]); (8162, [933; 776; 768]); (8163, [933; 776; 769]);
   (8164, [929; 787]); (8166, [933; 834]); (8167, [933; 776; 834]); (8178, [8186; 921]);
   (8179, [937; 921]); (8180, [911; 921]); (8182, [937; 834]); (8183, [937; 834; 921]);
   (8188, [937; 921]); (64256, [70; 70]); (64257, [70; 73]); (64258, [70; 76]);
   (64259, [70; 70; 73]); (64260, [70; 70; 76]); (64261, [83; 84]); (64262, [83; 84]);
   (64275, [1348; 1350]); (64276, [1348; 1333]); (64277, [1348; 1339]);
   (64278, [1358; 1350]); (64279, [1348; 1341])].

Definition upper_simple : list (N * N * N * N) :=
  [(181, 181, 1, 924); (224, 246, 1, 192); (248, 254, 1, 216); (255, 255, 1, 376);
   (257, 303, 2, 256); (305, 305, 1, 73); (307, 311, 2, 306); (314, 328, 2, 313);
   (331, 375, 2, 330); (378, 382, 2, 377); (383, 383, 1, 83); (384, 384, 1, 579);
   (387, 389, 2, 386); (392, 392, 1, 391); (396, 396, 1, 395); (402, 402, 1, 401);
   (405, 405, 1, 502); (409, 409, 1, 408); (410, 410, 1, 573); (414, 414, 1, 544);
   (417, 421, 2, 416); (424, 424, 1, 423); (429, 429, 1, 428); (432, 432, 1, 431);
   (436, 438, 2, 435); (441, 441, 1, 440); (445, 445, 1, 444); (447, 447, 1, 503);
   (453, 453, 1, 452); (454, 454, 1, 452); (456, 456, 1, 455); (457, 457, 1, 455);
   (459, 459, 1, 458); (460, 460, 1, 458); (462, 476, 2, 461); (477, 477, 1, 398);
   (479, 495, 2, 478); (498, 498, 1, 497); (499, 499, 1, 497); (501, 501, 1, 500);
   (505, 543, 2, 504); (547, 563, 2, 546); (572, 572, 1, 571); (575, 576, 1, 11390);
   (578, 578, 1, 577); (583, 591, 2, 582); (592, 592, 1, 11375); (593, 593, 1, 11373);
   (594, 594, 1, 11376); (595, 595, 1, 385); (596, 596, 1, 390); (598, 599, 1, 393);
   (601, 601, 1, 399); (603, 603, 1, 400); (604, 604, 1, 42923); (608, 608, 1, 403);
   (609, 609, 1, 42924); (611, 611, 1, 404); (613, 613, 1, 42893); (614, 614, 1, 42922);
   (616, 616, 1, 407); (617, 617, 1, 406); (618, 618, 1, 42926); (619, 619, 1, 11362);
   (620, 620, 1, 42925); (623, 623, 1, 412); (625, 625, 1, 11374); (626, 626, 1, 413);
   (629, 629, 1, 415); (637, 637, 1, 11364); (640, 640, 1, 422); (642, 642, 1, 42949);
   (643, 643, 1, 425); (647, 647, 1, 42929); (648, 648, 1, 430); (649, 649, 1, 580);
   (650, 651, 1, 433); (652, 652, 1, 581); (658, 658, 1, 439); (669, 669, 1, 42930);
   (670, 670, 1, 42928); (837, 837, 1, 921); (881, 883, 2, 880); (887, 887, 1, 886);
   (891, 893, 1, 1021); (940, 940, 1, 902); (941, 943, 1, 904); (945, 961, 1, 913);
   (962, 962, 1, 931); (963, 971, 1, 931); (972, 972, 1, 908); (973, 974, 1, 910);
   (976, 976, 1, 914); (977, 977, 1, 920); (981, 981, 1, 934); (982, 982, 1, 928);
   (983, 983, 1, 975); (985, 1007, 2, 984); (1008, 1008, 1, 922); (1009, 1009, 1, 929);
   (1010, 1010, 1, 1017); (1011, 1011, 1, 895); (1013, 1013, 1, 917);
   (1016, 1016, 1, 1015); (1019, 1019, 1, 1018); (1072, 1103, 1, 1040);
   (1104, 1119, 1, 1024); (1121, 1153, 2, 1120); (1163, 1215, 2, 1162);
   (1218, 1230, 2, 1217); (1231, 1231, 1, 1216); (1233, 1327, 2, 1232);
   (1377, 1414, 1, 1329); (4304, 4346, 1, 7312); (4349, 4351, 1, 7357);
   (5112, 5117, 1, 5104); (7296, 7296, 1, 1042); (7297, 7297, 1, 1044);
   (7298, 7298, 1, 1054); (7299, 7300, 1, 1057); (7301, 7301, 1, 1058);
   (7302, 7302, 1, 1066); (7303, 7303, 1, 1122); (7304, 7304, 1, 42570);
   (7545, 7545, 1, 42877); (7549, 7549, 1, 11363); (7566, 7566, 1, 42950);
   (7681, 7829, 2, 7680); (7835, 7835, 1, 7776); (7841, 7935, 2, 7840);
   (7936, 7943, 1, 7944); (7952, 7957, 1, 7960); (7968, 7975, 1, 7976);
   (7984, 7991, 1, 7992); (8000, 8005, 1, 8008); (8017, 8023, 2, 8025);
   (8032, 8039, 1, 8040); (8048, 8049, 1, 8122); (8050, 8053, 1, 8136);
   (8054, 8055, 1, 8154); (8056, 8057, 1, 8184); (8058, 8059, 1, 8170);
   (8060, 8061, 1, 8186); (8112, 8113, 1, 8120); (8126, 8126, 1, 921);
   (8144, 8145, 1, 8152); (8160, 8161, 1, 8168); (8165, 8165, 1, 8172);
   (8526, 8526, 1, 8498); (8560, 8575, 1, 8544); (8580, 8580, 1, 8579);
   (9424, 9449, 1, 9398); (11312, 11359, 1, 11264); (11361, 11361, 1, 11360);
   (11365, 11365, 1, 570); (11366, 11366, 1, 574); (11368, 11372, 2, 11367);
   (11379, 11379, 1, 11378); (11382, 11382, 1, 11381); (11393, 11491, 2, 11392);
   (11500, 11502, 2, 11499); (11507, 11507, 1, 11506); (11520, 11557, 1, 4256);
   (11559, 11559, 1, 4295); (11565, 11565, 1, 4301); (42561, 42605, 2, 42560);
   (42625, 42651, 2, 42624); (42787, 42799, 2, 42786); (42803, 42863, 2, 42802);
   (42874, 42876, 2, 42873); (42879, 42887, 2, 42878); (42892, 42892, 1, 42891);
   (42897, 42899, 2, 42896); (42900, 42900, 1, 42948); (42903, 42921, 2, 42902);
   (42933, 42947, 2, 42932); (42952, 42954, 2, 42951); (42961, 42961, 1, 42960);
   (42967, 42969, 2, 42966); (42998, 42998, 1, 42997); (43859, 43859, 1, 42931);
   (43888, 43967, 1, 5024); (65345, 65370, 1, 65313); (66600, 66639, 1, 66560);
   (66776, 66811, 1, 66736); (66967, 66977, 1, 66928); (66979, 66993, 1, 66940);
   (66995, 67001, 1, 66956); (67003, 67004, 1, 66964); (68800, 68850, 1, 68736);
   (71872, 71903, 1, 71840); (93792, 93823, 1, 93760); (125218, 125251, 1, 125184)].

Definition in_run (c : N) (run : N * N * N * N) : bool :=
  let '(first, last, step, _) := run in
  (first <=? c) && (c <=? last) && ((c - first) mod step =? 0).

Definition unicode_upper (c : N) : list N :=
  match List.find (fun entry => fst entry =? c) upper_special with
  | Some (_, u) => u
  | None =>
      match List.find (in_run c) upper_simple with
      | Some (first, _, _, image) => [image + (c - first)]
      | None => [c]
      end
  end.

(** [str.upper] of one character: one or more characters. *)
Definition upper_char (c : N) : list N :=
  if c <? 128 then [if (97 <=? c) && (c <=? 122) then c - 32 else c]
  else unicode_upper c.

(** [s.upper()] *)
Definition upper (s : text) : text := flat_map upper_char s.

(** [s.startswith(p)] *)
Fixpoint startswith (s p : text) : bool :=
  match p, s with
  | [], _ => true
  | _ :: _, [] => false
  | a :: p', b :: s' => (a =? b) && startswith s' p'
  end.

Local Close Scope N_scope.

(** Exceptions.  [AnsibleError] and every other instance of
    [Exception] are what [except Exception] catches; the remaining
    instances of [BaseException] ([KeyboardInterrupt], [SystemExit])
    are not. *)
Inductive exn : Type :=
| AnsibleError (message : string)
| PyException (cls : string) (message : string)
| PyBaseException (cls : string) (message : string).

(** [isinstance(e, Exception)] *)
Definition is_Exception (e : exn) : bool :=
  match e with
  | AnsibleError _ | PyException _ _ => true
  | PyBaseException _ _ => false
  end.

(** [to_native(e)], the text of the exception. *)
Definition to_native (e : exn) : string :=
  match e with
  | AnsibleError m | PyException _ m | PyBaseException _ m => m
  end.

Inductive result (A : Type) : Type :=
| Ok (a : A)
| Raise (e : exn).
Arguments Ok {A} a.
Arguments Raise {A} e.

End Py.
Export Py.

(** ** Rows, events and the effect monad *)

(** One element of a row sequence.  The database cursor yields mappings
    from column name to value, in column order; the cache store may hand
    back an element of any other shape. *)
Inductive RawRow : Type :=
| RowDict (fields : list (string * value))
| RowOther (v : value).

(** What [raw_hosts] can be bound to in [parse]: [None] or a row
    sequence.  The cache store holds values of the same kind. *)
Inductive RawHosts : Type :=
| NoneValue
| RowSeq (rows : list RawRow).

Record ConnParams : Type := {
  cp_host : string;
  cp_port : Z;
  cp_user : string;
  cp_password : string;
  cp_database : string;
}.

(** The connection object returned by [pymysql.connect]. *)
Record Connection : Type := { conn_params : ConnParams }.

Inductive level : Type := Lvv | Lvvv | Lvvvv | Lwarning | Lerror.

(** What a message interpolates: a value, a name or a row. *)
Inductive fmt_arg : Type :=
| AVal (v : value)
| AStr (s : string)
| ARow (r : RawRow).

(** Everything the plugin does to the outside, in the order it does it:
    [display] calls (the f-string template with its interpolated
    arguments), calls to the database client, to the cache store and to
    the inventory accumulator. *)
Inductive Event : Type :=
| Display (lvl : level) (template : string) (args : list fmt_arg)
| DbConnect (params : ConnParams)
| DbCursor
| DbExecute (query : text)
| DbFetchAll
| DbCursorClose
| DbClose
| CacheGet (key : string)
| CachePut (key : string) (rows : list RawRow)
| AddHost (host : value) (group : string)
| SetVariable (host : value) (name : string) (val : value)
| SetCompositeVars (host : value) (host_vars : RawRow) (strict : bool)
| AddHostToComposedGroups (host : value) (host_vars : RawRow) (strict : bool)
| AddHostToKeyedGroups (host : value) (host_vars : RawRow) (strict : bool).

Definition is_db_event (e : Event) : bool :=
  match e with
  | DbConnect _ | DbCursor | DbExecute _ | DbFetchAll | DbCursorClose | DbClose => true
  | _ => false
  end.

Definition is_inventory_event (e : Event) : bool :=
  match e with
  | AddHost _ _ | SetVariable _ _ _ | SetCompositeVars _ _ _
  | AddHostToComposedGroups _ _ _ | AddHostToKeyedGroups _ _ _ => true
  | _ => false
  end.

Definition is_cache_event (e : Event) : bool :=
  match e with
  | CacheGet _ | CachePut _ _ => true
  | _ => false
  end.

(** A computation over a state [S]: the events it emits, the state it
    leaves (also when it raises: mutations are never undone) and its
    outcome. *)
Definition M (S A : Type) : Type := S -> list Event * S * result A.

Module Eff.
Section Ops.
Context {S : Type}.

Definition ret {A} (a : A) : M S A := fun s => ([], s, Ok a).

Definition raise {A} (e : exn) : M S A := fun s => ([], s, Raise e).

Definition bind {A B} (c : M S A) (k : A -> M S B) : M S B :=
  fun s =>
    match c s with
    | (ev, s', Ok a) =>
        match k a s' with
        | (ev', s'', r) => (ev ++ ev', s'', r)
        end
    | (ev, s', Raise e) => (ev, s', Raise e)
    end.

Definition emit (e : Event) : M S unit := fun s => ([e], s, Ok tt).

Definition get_state : M S S := fun s => ([], s, Ok s).

Definition modify (f : S -> S) : M S unit := fun s => ([], f s, Ok tt).

(** [try: body  except Exception as e: handler e] *)
Definition try_except {A} (body : M S A) (handler : exn -> M S A) : M S A :=
  fun s =>
    match body s with
    | (ev, s', Raise e) =>
        if is_Exception e then
          match handler e s' with
          | (ev', s'', r) => (ev ++ ev', s'', r)
          end
        else (ev, s', Raise e)
    | done => done
    end.

(** [try: body  finally: final].  An exception raised by [final]
    replaces the outcome of [body]. *)
Definition try_finally {A} (body : M S A) (final : M S unit) : M S A :=
  fun s =>
    match body s with
    | (ev, s', r) =>
        match final s' with
        | (ev', s'', Ok _) => (ev ++ ev', s'', r)
        | (ev', s'', Raise e) => (ev ++ ev', s'', Raise e)
        end
    end.

(** [for x in xs: body x] *)
Fixpoint for_each {A} (body : A -> M S unit) (xs : list A) : M S unit :=
  match xs with
  | [] => ret tt
  | x :: xs' => bind (body x) (fun _ => for_each body xs')
  end.

(** [display.<lvl>(f"...")] *)
Definition display (lvl : level) (template : string) (args : list fmt_arg) : M S unit :=
  emit (Display lvl template args).
End Ops.

(** A function body with one local variable of type [L]. *)
Definition with_local {S L A} (init : L) (c : M (L * S) A) : M S A :=
  fun s =>
    match c (init, s) with
    | (ev, (_, s'), r) => (ev, s', r)
    end.

Definition lift {S L A} (c : M S A) : M (L * S) A :=
  fun ls =>
    match c (snd ls) with
    | (ev, s', r) => (ev, (fst ls, s'), r)
    end.

Definition set_local {S L} (l : L) : M (L * S) unit :=
  fun ls => ([], (l, snd ls), Ok tt).

Definition get_local {S L} : M (L * S) L :=
  fun ls => ([], ls, Ok (fst ls)).
End Eff.
Export Eff.

Declare Scope eff_scope.
Delimit Scope eff_scope with eff.
Notation "x <- c ;; k" := (bind c (fun x => k))
  (at level 100, c at next level, right associativity) : eff_scope.
Notation "c ;; k" := (bind c (fun _ => k))
  (at level 100, right associativity) : eff_scope.
Local Open Scope eff_scope.

Definition events {S A} (o : list Event * S * result A) : list Event := fst (fst o).
Definition final {S A} (o : list Event * S * result A) : S := snd (fst o).
Definition outcome {S A} (o : list Event * S * result A) : result A := snd o.

(** ** The inventory accumulator *)

Module InventoryData.

(** Modelled from the spec: the inventory accumulator ([add_host],
    [set_variable]) is the automation tool's own object and is only
    consumed by the plugin.  A host is identified by its name; a group
    is a named collection of hosts; a host variable is a value bound to
    a name on a host. *)
Record t : Type := {
  hosts : list value;
  groups : gmap string (list value);
  variables : gmap (value * string) value;
}.

Definition empty : t :=
  {| hosts := []; groups := ∅; variables := ∅ |}.

Definition members (inv : t) (group : string) : list value :=
  default [] (groups inv !! group).

(** Append [x] unless it is there already. *)
Definition add_once (x : value) (l : list value) : list value :=
  if decide (x ∈ l) then l else l ++ [x].

(** Modelled from the spec: [add_host(name, group)] registers the host
    into the group; registering an already-known host under the same
    group is a no-op, not an error. *)
Definition add_host (host : value) (group : string) (inv : t) : t :=
  {| hosts := add_once host (hosts inv);
     groups := <[group := add_once host (members inv group)]> (groups inv);
     variables := variables inv |}.

(** Modelled from the spec: [set_variable(host, name, value)] binds the
    name on that host, overwriting any prior value. *)
Definition set_variable (host : value) (name : string) (val : value) (inv : t) : t :=
  {| hosts := hosts inv;
     groups := groups inv;
     variables := <[(host, name) := val]> (variables inv) |}.

Definition get_variable (inv : t) (host : value) (name : string) : option value :=
  variables inv !! (host, name).

(** [extends a b]: nothing of [a] is missing from [b]: every host, every
    group membership and every variable binding of [a] is still in [b]
    (a binding may carry a newer value). *)
Definition extends (a b : t) : Prop :=
  (∀ h, h ∈ hosts a → h ∈ hosts b) ∧
  (∀ g h, h ∈ members a g → h ∈ members b g) ∧
  (∀ h n, is_Some (get_variable a h n) → is_Some (get_variable b h n)).

End InventoryData.

(** ** Configuration and collaborators *)

Record KeyedGroup : Type := {
  kg_key : string;
  kg_prefix : string;
  kg_separator : string;
}.

(** What [self.get_option] answers, option by option, as declared in
    DOCUMENTATION and in the [constructed] fragment.  [db_query] is kept
    as a value because [_get_raw_hosts] tests its type itself; [db_port]
    is the declared integer, on which [int] is the identity. *)
Record Options : Type := {
  db_host : string;
  db_port : Z;
  db_user : string;
  db_password : string;
  db_name : string;
  db_query : value;
  hostname_field : string;
  cache : bool;
  strict : bool;
  compose : list (string * string);
  groups : list (string * string);
  keyed_groups : list KeyedGroup;
}.

(** The database server as seen through the client library: whether
    connecting, opening a cursor and executing succeed or raise, and
    what [fetchall] yields for the executed statement. *)
Record Server : Type := {
  srv_connect : ConnParams -> option exn;
  srv_cursor : option exn;
  srv_execute : text -> option exn;
  srv_fetchall : text -> result (list RawRow);
}.

(** The three composition methods inherited from the [Constructable]
    base class, taking (spec, variables, host, strict).  Each mutates
    the inventory and may raise, possibly after some mutation. *)
Record Constructable : Type := {
  set_composite_vars :
    list (string * string) -> RawRow -> value -> bool ->
    InventoryData.t -> InventoryData.t * result unit;
  add_host_to_composed_groups :
    list (string * string) -> RawRow -> value -> bool ->
    InventoryData.t -> InventoryData.t * result unit;
  add_host_to_keyed_groups :
    list KeyedGroup -> RawRow -> value -> bool ->
    InventoryData.t -> InventoryData.t * result unit;
}.

(** [self.get_option("cache")] *)
Definition get_option_cache (o : Options) : bool := cache o.

(** The plugin instance with what it is wired to. *)
Record Env : Type := {
  options : Options;
  server : Server;
  constructable : Constructable;
  get_cache_key : string -> string;
}.

(** The mutable surroundings: [self._cache], [self.inventory] and the
    number of connections currently open at the server. *)
Record World : Type := {
  w_cache : gmap string RawHosts;
  w_inventory : InventoryData.t;
  w_open : nat;
}.

Definition set_cache (f : gmap string RawHosts -> gmap string RawHosts) (w : World) : World :=
  {| w_cache := f (w_cache w); w_inventory := w_inventory w; w_open := w_open w |}.

Definition set_inventory (f : InventoryData.t -> InventoryData.t) (w : World) : World :=
  {| w_cache := w_cache w; w_inventory := f (w_inventory w); w_open := w_open w |}.

Definition set_open (f : nat -> nat) (w : World) : World :=
  {| w_cache := w_cache w; w_inventory := w_inventory w; w_open := f (w_open w) |}.

(** ** The plugin *)

Section InventoryModule.
Context (self : Env).

(** *** The database client, [pymysql] *)

(** [pymysql.connect(...)]: returns an open connection or raises. *)
Definition pymysql_connect (params : ConnParams) : M World Connection :=
  emit (DbConnect params);;
  match srv_connect (server self) params with
  | Some e => raise e
  | None =>
      modify (set_open S);;
      ret {| conn_params := params |}
  end.

(** [connection.cursor()] *)
Definition connection_cursor (connection : Connection) : M World unit :=
  emit DbCursor;;
  match srv_cursor (server self) with
  | Some e => raise e
  | None => ret tt
  end.

(** [cursor.execute(query)] *)
Definition cursor_execute (query : text) : M World unit :=
  emit (DbExecute query);;
  match srv_execute (server self) query with
  | Some e => raise e
  | None => ret tt
  end.

(** [cursor.fetchall()], for the statement the cursor has executed. *)
Definition cursor_fetchall (query : text) : M World (list RawRow) :=
  emit DbFetchAll;;
  match srv_fetchall (server self) query with
  | Raise e => raise e
  | Ok rows => ret rows
  end.

(** Leaving [with connection.cursor() as cursor]. *)
Definition cursor_close : M World unit := emit DbCursorClose.

(** [connection.close()] *)
Definition connection_close (connection : Connection) : M World unit :=
  emit DbClose;;
  modify (set_open Nat.pred).

(** *** The cache store, [self._cache] *)

(** [self._cache[key]]: [None] stands for [KeyError]. *)
Definition cache_getitem (key : string) : M World (option RawHosts) :=
  emit (CacheGet key);;
  w <- get_state;;
  ret (w_cache w !! key).

(** [self._cache[key] = rows] *)
Definition cache_setitem (key : string) (rows : list RawRow) : M World unit :=
  emit (CachePut key rows);;
  modify (set_cache (<[key := RowSeq rows]>)).

(** *** The inventory, [self.inventory], and the inherited methods *)

Definition inventory_add_host (host : value) (group : string) : M World unit :=
  emit (AddHost host group);;
  modify (set_inventory (InventoryData.add_host host group)).

Definition inventory_set_variable (host : value) (name : string) (val : value) : M World unit :=
  emit (SetVariable host name val);;
  modify (set_inventory (InventoryData.set_variable host name val)).

(** Run an inherited method on the inventory: the mutation stays, also
    when the method raises. *)
Definition call_inherited (call : Event)
    (method : InventoryData.t -> InventoryData.t * result unit) : M World unit :=
  fun w =>
    match method (w_inventory w) with
    | (inv, r) => ([call], set_inventory (fun _ => inv) w, r)
    end.

Definition _set_composite_vars (spec : list (string * string))
    (host_vars : RawRow) (hostname : value) (strict : bool) : M World unit :=
  call_inherited (SetCompositeVars hostname host_vars strict)
    (set_composite_vars (constructable self) spec host_vars hostname strict).

Definition _add_host_to_composed_groups (spec : list (string * string))
    (host_vars : RawRow) (hostname : value) (strict : bool) : M World unit :=
  call_inherited (AddHostToComposedGroups hostname host_vars strict)
    (add_host_to_composed_groups (constructable self) spec host_vars hostname strict).

Definition _add_host_to_keyed_groups (spec : list KeyedGroup)
    (host_vars : RawRow) (hostname : value) (strict : bool) : M World unit :=
  call_inherited (AddHostToKeyedGroups hostname host_vars strict)
    (add_host_to_keyed_groups (constructable self) spec host_vars hostname strict).

(** *** Rows as mappings *)

Fixpoint dict_get (fields : list (string * value)) (key : string) : value :=
  match fields with
  | [] => VNone
  | (k, v) :: fields' => if String.eqb k key then v else dict_get fields' key
  end.

Definition no_attribute (v : value) (attr : string) : exn :=
  PyException "AttributeError"
    ("'" +:+ type_name v +:+ "' object has no attribute '" +:+ attr +:+ "'").

(** [row.get(key)] *)
Definition row_get (row : RawRow) (key : string) : result value :=
  match row with
  | RowDict fields => Ok (dict_get fields key)
  | RowOther v => Raise (no_attribute v "get")
  end.

(** [host_vars.items()] *)
Definition row_items (row : RawRow) : result (list (string * value)) :=
  match row with
  | RowDict fields => Ok fields
  | RowOther v => Raise (no_attribute v "items")
  end.

Definition of_result {S A} (r : result A) : M S A :=
  match r with
  | Ok a => ret a
  | Raise e => raise e
  end.

(** *** [_get_raw_hosts] *)

Definition connect_params : ConnParams :=
  {| cp_host := db_host (options self);
     cp_port := db_port (options self);
     cp_user := db_user (options self);
     cp_password := db_password (options self);
     cp_database := db_name (options self) |}.

(** The [try] suite of [_get_raw_hosts]. *)
Definition fetch_suite (query : text) : M (option Connection * World) (list RawRow) :=
  connection <- lift (pymysql_connect connect_params);;
  set_local (Some connection);;
  display Lvv "Connected to database: {self.get_option('db_name')} on {self.get_option('db_host')}"
    [AStr (db_name (options self)); AStr (db_host (options self))];;
  lift (connection_cursor connection);;
  try_finally
    (display Lvvv "Executing query: {query}" [AVal (VStr query)];;
     lift (cursor_execute query);;
     raw_hosts <- lift (cursor_fetchall query);;
     display Lvv "Fetched {len(raw_hosts)} rows from database"
       [AVal (VInt (Z.of_nat (length raw_hosts)))];;
     ret raw_hosts)
    (lift cursor_close).

(** The [except Exception as e] suite. *)
Definition fetch_handler {S} (e : exn) : M S (list RawRow) :=
  let error := "Database query failed: " +:+ to_native e in
  display Lerror error [];;
  raise (AnsibleError error).

(** The [finally] suite. *)
Definition fetch_finally : M (option Connection * World) unit :=
  connection <- get_local;;
  match connection with
  | Some c =>
      lift (connection_close c);;
      display Lvv "Closed database connection" []
  | None => ret tt
  end.

Definition config_error {S A} (error : string) : M S A :=
  display Lerror error [];;
  raise (AnsibleError error).

Definition _get_raw_hosts : M World (list RawRow) :=
  with_local (None : option Connection)
    (match db_query (options self) with
     | VStr query =>
         if negb (truthy (VStr (strip query))) then
           config_error "Query must be a non-empty string"
         else if negb (startswith (upper (strip query)) "SELECT") then
           config_error "Database query must be a valid SELECT statement"
         else
           try_finally (try_except (fetch_suite query) fetch_handler) fetch_finally
     | _ => config_error "Query must be a non-empty string"
     end).

(** *** [_add_host] and [_populate] *)

(** The loop [for var_name, var_value in host_vars.items()] of
    [_add_host]. *)
Definition set_host_variables (hostname : value) (items : list (string * value)) : M World unit :=
  for_each
    (fun item =>
       inventory_set_variable hostname (fst item) (snd item);;
       display Lvvvv "Set variable {var_name}={var_value} for host {hostname}"
         [AStr (fst item); AVal (snd item); AVal hostname])
    items.

Definition _add_host (hostname : value) (host_vars : RawRow) : M World unit :=
  let strict := strict (options self) in
  inventory_add_host hostname "all";;
  display Lvvvv "Added host {hostname} to group 'all'" [AVal hostname];;
  items <- of_result (row_items host_vars);;
  set_host_variables hostname items;;
  _set_composite_vars (compose (options self)) host_vars hostname strict;;
  _add_host_to_composed_groups (groups (options self)) host_vars hostname strict;;
  _add_host_to_keyed_groups (keyed_groups (options self)) host_vars hostname strict;;
  display Lvvv "Completed processing for host: {hostname}" [AVal hostname].

(** The [try] suite of the loop of [_populate], for one row. *)
Definition populate_suite (hostname_field : string) (row : RawRow) : M World unit :=
  hostname <- of_result (row_get row hostname_field);;
  if truthy hostname then
    display Lvvv "Processing host: {hostname}" [AVal hostname];;
    _add_host hostname row
  else
    display Lwarning "Skipping row with missing hostname field: {row}" [ARow row].

(** The [except Exception as e] suite of the loop. *)
Definition populate_handler (e : exn) : M World unit :=
  let error := "Failure parsing record: " +:+ to_native e in
  display Lerror error [];;
  raise (AnsibleError error).

(** The body of the loop of [_populate], one row. *)
Definition populate_row (hostname_field : string) (row : RawRow) : M World unit :=
  try_except (populate_suite hostname_field row) populate_handler.

Definition _populate (raw_hosts : list RawRow) : M World unit :=
  let hostname_field := hostname_field (options self) in
  display Lvvv "Using hostname field: {hostname_field}" [AStr hostname_field];;
  for_each (populate_row hostname_field) raw_hosts.

(** *** [parse] *)

(** The body of [parse] from its first message on.  The two inherited
    calls that come before it, [super().parse] and
    [_read_config_data], are not part of the plugin: they bind the
    inventory, load the options and set up the cache store, that is,
    they produce the [self] and the world this definition starts from,
    or raise before anything below runs.  [cache] is the flag passed by
    the caller. *)
Definition parse (path : string) (cache : bool) : M World unit :=
  display Lvv "Parsing inventory file: {path}" [AStr path];;
  let cache_key := get_cache_key self path in
  let user_cache_setting := get_option_cache (options self) in
  let utilize_cache := user_cache_setting && cache in
  display Lvv "Utilize cache: {utilize_cache}" [AVal (VBool utilize_cache)];;
  raw_hosts <-
    (if utilize_cache then
       found <- cache_getitem cache_key;;
       match found with
       | Some cached =>
           display Lvv "Cache hit for key: {cache_key}" [AStr cache_key];;
           ret cached
       | None =>
           display Lvv "Cache miss for key: {cache_key}" [AStr cache_key];;
           ret NoneValue
       end
     else ret NoneValue);;
  raw_hosts <-
    match raw_hosts with
    | NoneValue =>
        display Lvv "No cached data found, querying database" [];;
        fetched <- _get_raw_hosts;;
        (if utilize_cache then
           cache_setitem cache_key fetched;;
           display Lvv "Cached data for key: {cache_key}" [AStr cache_key]
         else ret tt);;
        ret fetched
    | RowSeq rows => ret rows
    end;;
  display Lvv "Populating inventory with {len(raw_hosts)} hosts"
    [AVal (VInt (Z.of_nat (length raw_hosts)))];;
  _populate raw_hosts.

End InventoryModule.

(** ** Vocabulary of the specification *)

(** The text consists of whitespace only (the empty text included). *)
Definition whitespace_only (s : text) : Prop :=
  ∀ c, In c s → isspace c = true.

Definition first_char (s : text) : option N :=
  match s with
  | [] => None
  | c :: _ => Some c
  end.

Fixpoint last_char (s : text) : option N :=
  match s with
  | [] => None
  | [c] => Some c
  | _ :: s' => last_char s'
  end.

(** [t] is what is left of [s] once leading and trailing whitespace
    are removed. *)
Definition trimmed_of (s t : text) : Prop :=
  ∃ l r, s = l ++ t ++ r ∧ whitespace_only l ∧ whitespace_only r ∧
         (∀ c, first_char t = Some c → isspace c = false) ∧
         (∀ c, last_char t = Some c → isspace c = false).

(** The text begins with the given letters, each in either case. *)
Fixpoint begins_nocase (letters : list (N * N)) (t : text) : Prop :=
  match letters with
  | [] => True
  | (u, l) :: letters' =>
      match t with
      | [] => False
      | c :: t' => (c = u ∨ c = l) ∧ begins_nocase letters' t'
      end
  end.

(** The letters of SELECT, upper case and lower case. *)
Definition SELECT_letters : list (N * N) :=
  [(83, 115); (69, 101); (76, 108); (69, 101); (67, 99); (84, 116)]%N.

Definition letters_text (letters : list (N * N)) : text := map fst letters.

Definition begins_with_select (t : text) : Prop := begins_nocase SELECT_letters t.

(** The query option values refused when "case-insensitively" is read
    letter by letter: not a string, empty or whitespace-only, or with a
    trimmed text that does not begin with SELECT in any mix of upper-case
    and lower-case letters. *)
Definition refused_by_letters (q : value) : Prop :=
  match q with
  | VStr s => whitespace_only s ∨ ∃ t, trimmed_of s t ∧ ¬ begins_with_select t
  | _ => True
  end.

(** The text, once upper-cased, begins with SELECT. *)
Definition upper_begins_with_select (t : text) : Prop :=
  ∃ rest, upper t = "SELECT"%text ++ rest.

(** The query option values that are refused: not a string, empty or
    whitespace-only, or with a trimmed text whose upper-casing does not
    begin with SELECT. *)
Definition refused_query (q : value) : Prop :=
  match q with
  | VStr s => whitespace_only s ∨ ∃ t, trimmed_of s t ∧ ¬ upper_begins_with_select t
  | _ => True
  end.

(** The value [_populate] reads as the hostname of a row: the
    hostname field of a mapping, [None] when the field is absent. *)
Definition row_hostname (hostname_field : string) (row : RawRow) : value :=
  match row with
  | RowDict fields => dict_get fields hostname_field
  | RowOther _ => VNone
  end.

(** The row is a mapping with a non-empty hostname-field value. *)
Definition has_hostname (hostname_field : string) (row : RawRow) : bool :=
  match row with
  | RowDict fields => truthy (dict_get fields hostname_field)
  | RowOther _ => false
  end.


Definition is_display (e : Event) : bool :=
  match e with
  | Display _ _ _ => true
  | _ => false
  end.

Definition is_add_host (e : Event) : bool :=
  match e with
  | AddHost _ _ => true
  | _ => false
  end.

Definition is_warning (e : Event) : bool :=
  match e with
  | Display Lwarning _ _ => true
  | _ => false
  end.

(** The connections a trace opens: its successful [connect] calls. *)
Definition is_successful_connect (srv : Server) (e : Event) : bool :=
  match e with
  | DbConnect params =>
      match srv_connect srv params with
      | None => true
      | Some _ => false
      end
  | _ => false
  end.

Definition is_close (e : Event) : bool :=
  match e with
  | DbClose => true
  | _ => false
  end.

(** The trace ends with the [close] of the connection and the message
    that follows it. *)
Definition ends_with_close (evs : list Event) : bool :=
  match rev evs with
  | Display Lvv "Closed database connection" [] :: DbClose :: _ => true
  | _ => false
  end.

Definition count_events (p : Event -> bool) (evs : list Event) : nat :=
  length (List.filter p evs).

(** The calls and messages of the variable loop of [_add_host]. *)
Definition set_variables_script (hostname : value) (fields : list (string * value)) : list Event :=
  flat_map
    (fun item =>
       [SetVariable hostname (fst item) (snd item);
        Display Lvvvv "Set variable {var_name}={var_value} for host {hostname}"
          [AStr (fst item); AVal (snd item); AVal hostname]])
    fields.

(** What [_add_host] does for a mapping row when nothing raises. *)
Definition add_host_script (strict : bool) (hostname : value)
    (fields : list (string * value)) : list Event :=
  [AddHost hostname "all";
   Display Lvvvv "Added host {hostname} to group 'all'" [AVal hostname]]
  ++ set_variables_script hostname fields
  ++ [SetCompositeVars hostname (RowDict fields) strict;
      AddHostToComposedGroups hostname (RowDict fields) strict;
      AddHostToKeyedGroups hostname (RowDict fields) strict;
      Display Lvvv "Completed processing for host: {hostname}" [AVal hostname]].


(** An inherited method that only adds to the inventory. *)
Definition only_adds (A : Type)
    (method : A -> RawRow -> value -> bool ->
              InventoryData.t -> InventoryData.t * result unit) : Prop :=
  ∀ spec host_vars host strict inv,
    InventoryData.extends inv (fst (method spec host_vars host strict inv)).

(** The inventory after the row fields have been set, in field order,
    as variables of the host. *)
Fixpoint set_variables (host : value) (items : list (string * value))
    (inv : InventoryData.t) : InventoryData.t :=
  match items with
  | [] => inv
  | item :: items' =>
      set_variables host items' (InventoryData.set_variable host (fst item) (snd item) inv)
  end.

Definition is_display_or_inventory (e : Event) : bool :=
  is_display e || is_inventory_event e.

Definition is_display_or_db (e : Event) : bool :=
  is_display e || is_db_event e.

(** The three inherited methods of a plugin instance all satisfy [P]. *)
Definition all_methods (P : ∀ A, (A -> RawRow -> value -> bool ->
    InventoryData.t -> InventoryData.t * result unit) -> Prop) (c : Constructable) : Prop :=
  P _ (set_composite_vars c) ∧ P _ (add_host_to_composed_groups c) ∧
  P _ (add_host_to_keyed_groups c).

(** The warning [_populate] displays for a skipped row. *)
Definition skip_warning (row : RawRow) : Event :=
  Display Lwarning "Skipping row with missing hostname field: {row}" [ARow row].

(** The text of the error [_populate] raises for the exception [e]. *)
Definition parsing_failure (e : exn) : string :=
  "Failure parsing record: " +:+ to_native e.

(** The rows [_populate] skips: mappings without a hostname. *)
Definition is_skipped (hostname_field : string) (row : RawRow) : bool :=
  match row with
  | RowDict fields => negb (truthy (dict_get fields hostname_field))
  | RowOther _ => false
  end.

(** The first message of [_populate]. *)
Definition populate_header (hostname_field : string) : Event :=
  Display Lvvv "Using hostname field: {hostname_field}" [AStr hostname_field].

(** What one turn of the loop of [_populate] does for a row when
    nothing raises: a mapping with a hostname is announced and handed
    to [_add_host], a mapping without one is skipped with a warning. *)
Definition row_script (strict : bool) (hostname_field : string) (row : RawRow) : list Event :=
  match row with
  | RowDict fields =>
      let hostname := dict_get fields hostname_field in
      if truthy hostname then
        Display Lvvv "Processing host: {hostname}" [AVal hostname]
        :: add_host_script strict hostname fields
      else [skip_warning row]
  | RowOther _ => []
  end.




(** The rows [parse] takes from the cache: there are some when the
    cache is utilized and holds a row sequence under the key. *)
Definition cached_rows (utilize_cache : bool) (found : option RawHosts) : option (list RawRow) :=
  if utilize_cache then
    match found with
    | Some (RowSeq rows) => Some rows
    | _ => None
    end
  else None.

(** What [parse] displays and asks the cache before it has its rows or
    turns to the database. *)
Definition parse_prelude (path cache_key : string) (utilize_cache : bool)
    (found : option RawHosts) : list Event :=
  [Display Lvv "Parsing inventory file: {path}" [AStr path];
   Display Lvv "Utilize cache: {utilize_cache}" [AVal (VBool utilize_cache)]]
  ++ (if utilize_cache then
        [CacheGet cache_key;
         match found with
         | Some _ => Display Lvv "Cache hit for key: {cache_key}" [AStr cache_key]
         | None => Display Lvv "Cache miss for key: {cache_key}" [AStr cache_key]
         end]
      else []).

(** What [parse] does between a successful fetch and the population. *)
Definition parse_store (cache_key : string) (utilize_cache : bool)
    (rows : list RawRow) : list Event :=
  (if utilize_cache then
     [CachePut cache_key rows;
      Display Lvv "Cached data for key: {cache_key}" [AStr cache_key]]
   else [])
  ++ [Display Lvv "Populating inventory with {len(raw_hosts)} hosts"
        [AVal (VInt (Z.of_nat (length rows)))]].

Definition no_db_event (evs : list Event) : Prop :=
  forallb (fun e => negb (is_db_event e)) evs = true.

Definition no_inventory_event (evs : list Event) : Prop :=
  forallb (fun e => negb (is_inventory_event e)) evs = true.

Definition is_cache_get (e : Event) : bool :=
  match e with
  | CacheGet _ => true
  | _ => false
  end.

(** ** Sample configurations *)

Module Sample.

Definition rows_h1 : list RawRow :=
  [RowDict [("hostname", VStr "h1"); ("env", VStr "PROD")];
   RowDict [("hostname", VStr ""); ("env", VStr "DEV")]].


Definition rows_broken : list RawRow :=
  [RowDict [("hostname", VStr "h1"); ("env", VStr "PROD")];
   RowOther (VInt 7);
   RowDict [("hostname", VStr "h3")]].

Definition rows_three : list RawRow :=
  [RowDict [("hostname", VStr "h1"); ("env", VStr "PROD")];
   RowDict [("hostname", VStr "h2"); ("env", VStr "QA")];
   RowDict [("hostname", VStr "h3"); ("env", VStr "DEV")]].

Definition server_ok (rows : list RawRow) : Server :=
  {| srv_connect := fun _ => None;
     srv_cursor := None;
     srv_execute := fun _ => None;
     srv_fetchall := fun _ => Ok rows |}.

(** A server on which the statement fails. *)
Definition server_bad_sql : Server :=
  {| srv_connect := fun _ => None;
     srv_cursor := None;
     srv_execute := fun _ => Some (PyException "ProgrammingError" "syntax error");
     srv_fetchall := fun _ => Ok [] |}.

(** A server that cannot be reached. *)
Definition server_down : Server :=
  {| srv_connect := fun _ => Some (PyException "OperationalError" "Can't connect to MySQL server");
     srv_cursor := None;
     srv_execute := fun _ => None;
     srv_fetchall := fun _ => Ok [] |}.

Definition rows_nameless : list RawRow :=
  [RowDict [("env", VStr "DEV")];
   RowDict [("hostname", VStr ""); ("env", VStr "QA")];
   RowDict [("hostname", VNone)]].

(** Composition with nothing configured: the three methods return at
    once. *)
Definition constructable_idle : Constructable :=
  {| set_composite_vars := fun _ _ _ _ inv => (inv, Ok tt);
     add_host_to_composed_groups := fun _ _ _ _ inv => (inv, Ok tt);
     add_host_to_keyed_groups := fun _ _ _ _ inv => (inv, Ok tt) |}.

(** Strict composition that fails on the host named [h2], after having
    recorded a variable on it. *)
Definition constructable_strict : Constructable :=
  {| set_composite_vars := fun _ _ host _ inv =>
       if decide (host = VStr "h2") then
         (InventoryData.set_variable host "partial" (VBool true) inv,
          Raise (AnsibleError "Could not set role for host h2"))
       else (inv, Ok tt);
     add_host_to_composed_groups := fun _ _ _ _ inv => (inv, Ok tt);
     add_host_to_keyed_groups := fun _ _ _ _ inv => (inv, Ok tt) |}.

Definition opts (query : value) (use_cache : bool) : Options :=
  {| db_host := "localhost";
     db_port := 3306;
     db_user := "ansible";
     db_password := "ansiblepass";
     db_name := "master";
     db_query := query;
     hostname_field := "hostname";
     cache := use_cache;
     strict := false;
     compose := [];
     groups := [];
     keyed_groups := [] |}.

Definition env (query : value) (use_cache : bool) (srv : Server) : Env :=
  {| options := opts query use_cache;
     server := srv;
     constructable := constructable_idle;
     get_cache_key := fun path => "mysql_" +:+ path |}.

Definition opts_strict : Options :=
  {| db_host := "localhost";
     db_port := 3306;
     db_user := "ansible";
     db_password := "ansiblepass";
     db_name := "master";
     db_query := VStr "SELECT * FROM mydb;";
     hostname_field := "hostname";
     cache := false;
     strict := true;
     compose := [("role", "undefined_variable")];
     groups := [];
     keyed_groups := [] |}.

Definition env_strict : Env :=
  {| options := opts_strict;
     server := server_ok [];
     constructable := constructable_strict;
     get_cache_key := fun path => "mysql_" +:+ path |}.

Definition world0 : World :=
  {| w_cache := ∅; w_inventory := InventoryData.empty; w_open := 0 |}.

(** A world whose cache already holds rows under the key of
    [mysql.yml]. *)
Definition world_cached : World :=
  {| w_cache := {["mysql_mysql.yml" := RowSeq rows_h1]};
     w_inventory := InventoryData.empty;
     w_open := 0 |}.

(** A server on which the statement is interrupted from the keyboard. *)
Definition server_interrupted : Server :=
  {| srv_connect := fun _ => None;
     srv_cursor := None;
     srv_execute := fun _ => Some (PyBaseException "KeyboardInterrupt" "");
     srv_fetchall := fun _ => Ok [] |}.

(** Composition interrupted from the keyboard on the host named [h2]. *)
Definition constructable_interrupted : Constructable :=
  {| set_composite_vars := fun _ _ host _ inv =>
       if decide (host = VStr "h2") then (inv, Raise (PyBaseException "KeyboardInterrupt" ""))
       else (inv, Ok tt);
     add_host_to_composed_groups := fun _ _ _ _ inv => (inv, Ok tt);
     add_host_to_keyed_groups := fun _ _ _ _ inv => (inv, Ok tt) |}.

Definition env_interrupted : Env :=
  {| options := opts (VStr "SELECT * FROM mydb;") false;
     server := server_interrupted;
     constructable := constructable_interrupted;
     get_cache_key := fun path => "mysql_" +:+ path |}.

(** A world whose cache holds [None] under the key of [mysql.yml]. *)
Definition world_cached_none : World :=
  {| w_cache := {["mysql_mysql.yml" := NoneValue]};
     w_inventory := InventoryData.empty;
     w_open := 0 |}.

End Sample.

(** ** The rest of the plugin *)

(** [s.endswith(suffix)]: some tail of [s] is [suffix]. *)
Fixpoint endswith (s suffix : string) : bool :=
  if String.eqb s suffix then true
  else
    match s with
    | EmptyString => false
    | String _ s' => endswith s' suffix
    end.

(** [s.endswith((suffix1, suffix2, ...))] *)
Definition endswith_any (s : string) (suffixes : list string) : bool :=
  existsb (endswith s) suffixes.

(** [verify_file].  [super_verify_file] is the check of the base class
    (the file exists and can be read), which is not part of the plugin. *)
Definition verify_file {S} (super_verify_file : string -> bool) (path : string) : M S bool :=
  let valid :=
    if super_verify_file path then
      if endswith_any path ["mysql.yaml"; "mysql.yml"] then true else false
    else false in
  display Lvv "Verifying inventory file: {path}, Valid: {valid}"
    [AStr path; AVal (VBool valid)];;
  ret valid.

Definition is_error_display (e : Event) : bool :=
  match e with
  | Display Lerror _ _ => true
  | _ => false
  end.

Definition is_execute (e : Event) : bool :=
  match e with
  | DbExecute _ => true
  | _ => false
  end.

(** The calls [_get_raw_hosts] makes to the database client when
    every one of them succeeds. *)
Definition fetch_script (params : ConnParams) (database host : string) (query : text)
    (rows : list RawRow) : list Event :=
  [DbConnect params;
   Display Lvv "Connected to database: {self.get_option('db_name')} on {self.get_option('db_host')}"
     [AStr database; AStr host];
   DbCursor;
   Display Lvvv "Executing query: {query}" [AVal (VStr query)];
   DbExecute query;
   DbFetchAll;
   Display Lvv "Fetched {len(raw_hosts)} rows from database"
     [AVal (VInt (Z.of_nat (length rows)))];
   DbCursorClose;
   DbClose;
   Display Lvv "Closed database connection" []].

(** The text of the error [_get_raw_hosts] raises for the exception
    [e] of the database client. *)
Definition database_failure (e : exn) : string :=
  "Database query failed: " +:+ to_native e.

Definition is_cache_put (e : Event) : bool :=
  match e with
  | CachePut _ _ => true
  | _ => false
  end.

(** The row is a mapping in which the hostname field is absent or
    falsy. *)
Definition lacks_hostname (hostname_field : string) (row : RawRow) : Prop :=
  ∃ fields, row = RowDict fields ∧
            (¬ In hostname_field (map fst fields) ∨
             truthy (dict_get fields hostname_field) = false).

(** The run displays an error exactly when it raises an
    [AnsibleError], and then it has displayed the message it raises. *)
Definition errors_shown {S A} (o : list Event * S * result A) : Prop :=
  (∀ m, outcome o = Raise (AnsibleError m) → In (Display Lerror m []) (events o)) ∧
  (existsb is_error_display (events o) = true → ∃ m, outcome o = Raise (AnsibleError m)).

(** The characters that [str.upper] turns into text beginning with a
    letter of SELECT, letter by letter: the letter in either case and,
    besides, the long s (U+017F) for S and the t with diaeresis
    (U+1E97, upper-cased to T followed by a combining diaeresis) for
    the final T. *)
Definition SELECT_forms : list (N * list N) :=
  [(83, [83; 115; 383]); (69, [69; 101]); (76, [76; 108]); (69, [69; 101]);
   (67, [67; 99]); (84, [84; 116; 7831])]%N.

(** The text begins with one character of each form, in order. *)
Fixpoint begins_with_forms (forms : list (N * list N)) (t : text) : Prop :=
  match forms with
  | [] => True
  | (_, fs) :: forms' =>
      match t with
      | [] => False
      | c :: t' => In c fs ∧ begins_with_forms forms' t'
      end
  end.

(** The query option values that pass validation, said without
    [str.upper]: a text whose trimmed text begins with SELECT, each
    letter in one of its forms. *)
Definition accepted_query (q : value) : Prop :=
  match q with
  | VStr s => ∃ t, trimmed_of s t ∧ begins_with_forms SELECT_forms t
  | _ => False
  end.

(** The characters of a run of [upper_simple]. *)
Definition run_members (run : N * N * N * N) : list N :=
  let '(first, last, step, _) := run in
  map (fun k => (first + N.of_nat k * step)%N)
    (seq 0 (S (N.to_nat ((last - first) / step)%N))).

(** The characters beyond ASCII that the tables of [str.upper] list. *)
Definition changed_by_upper : list N :=
  map fst upper_special ++ flat_map run_members upper_simple.

(** The ASCII characters. *)
Definition ascii_chars : list N := map N.of_nat (seq 0 128).

(** The character [c] is right for the letter [X] with forms [fs],
    [next] being the letters that follow: when [c] is a form, its
    upper-casing is [X], or begins with [X] and no letter follows; when
    it is not, its upper-casing does not begin with [X], or goes on
    with something else than the next letter. *)
Definition form_ok (X : N) (fs next : list N) (c : N) : bool :=
  match upper_char c with
  | [] => false
  | x :: more =>
      if (x =? X)%N then
        if existsb (N.eqb c) fs then
          match more, next with
          | [], _ => true
          | _, [] => true
          | _, _ => false
          end
        else
          match more, next with
          | y :: _, Y :: _ => negb (y =? Y)%N
          | _, _ => false
          end
      else negb (existsb (N.eqb c) fs)
  end.

(** Every character is right for every letter of the forms, given the
    letters that follow it. *)
Fixpoint forms_checked (forms : list (N * list N)) : Prop :=
  match forms with
  | [] => True
  | (X, fs) :: forms' => (∀ c, form_ok X fs (map fst forms') c = true) ∧ forms_checked forms'
  end.

(** * Proofs *)

Ltac unfold_eff :=
  cbv [bind ret raise emit get_state modify try_except try_finally display
       with_local lift set_local get_local of_result config_error].

Ltac unfold_fetch :=
  cbv [_get_raw_hosts fetch_suite fetch_handler fetch_finally pymysql_connect
       connection_cursor cursor_execute cursor_fetchall cursor_close
       connection_close].

(** The exits of the validated part of [_get_raw_hosts], one server
    answer after the other; [Hconn] records the answer to [connect]. *)
Ltac fetch_cases self query tac :=
  unfold_fetch; unfold_eff;
  destruct (srv_connect (server self) (connect_params self)) as [? |] eqn:Hconn;
  [ destruct (is_Exception _); tac |];
  destruct (srv_cursor (server self)) as [? |];
  [ destruct (is_Exception _); tac |];
  destruct (srv_execute (server self) query) as [? |];
  [ destruct (is_Exception _); tac |];
  destruct (srv_fetchall (server self) query) as [? | ?];
  [ tac | destruct (is_Exception _); tac ].

(** ** Text *)

Lemma whitespace_only_cons c s :
  whitespace_only (c :: s) ↔ isspace c = true ∧ whitespace_only s.
Proof.
  unfold whitespace_only; simpl. split.
  - intros H; split; [apply H; auto | intros d Hd; apply H; auto].
  - intros [Hc Hs] d [<- | Hd]; auto.
Qed.

Lemma whitespace_only_empty : whitespace_only [].
Proof. intros c []. Qed.

Lemma lstrip_whitespace l s : whitespace_only l → lstrip (l ++ s) = lstrip s.
Proof.
  induction l as [| c l IH]; simpl; [reflexivity |].
  intros [Hc Hl]%whitespace_only_cons. rewrite Hc. auto.
Qed.

Lemma lstrip_first s :
  (∀ c, first_char s = Some c → isspace c = false) → lstrip s = s.
Proof.
  destruct s as [| c s]; simpl; [reflexivity |].
  intros H. rewrite (H c); reflexivity.
Qed.

Lemma rstrip_empty_iff s : rstrip s = [] ↔ whitespace_only s.
Proof.
  induction s as [| c s IH]; simpl.
  - split; [intros _; apply whitespace_only_empty | reflexivity].
  - rewrite whitespace_only_cons, <- IH.
    destruct (rstrip s); destruct (isspace c); split;
      intros; try discriminate; try tauto; destruct H; discriminate.
Qed.

Lemma rstrip_whitespace s r : whitespace_only r → rstrip (s ++ r) = rstrip s.
Proof.
  intros Hr. induction s as [| c s IH]; simpl.
  - apply rstrip_empty_iff; assumption.
  - rewrite IH. reflexivity.
Qed.

Lemma rstrip_last s :
  (∀ c, last_char s = Some c → isspace c = false) → rstrip s = s.
Proof.
  induction s as [| c s IH]; simpl; [reflexivity |].
  destruct s as [| d s'].
  - intros H. simpl. rewrite (H c); reflexivity.
  - intros H. rewrite IH by exact H. reflexivity.
Qed.

Lemma lstrip_empty_iff s : lstrip s = [] ↔ whitespace_only s.
Proof.
  induction s as [| c s IH]; simpl.
  - split; [intros _; apply whitespace_only_empty | reflexivity].
  - rewrite whitespace_only_cons.
    destruct (isspace c); [rewrite IH; tauto |].
    split; [discriminate | intros [? _]; discriminate].
Qed.

Lemma lstrip_whitespace_only s : whitespace_only s → whitespace_only (lstrip s).
Proof.
  intros H. apply lstrip_empty_iff in H. rewrite H. apply whitespace_only_empty.
Qed.

(** [strip] answers the empty text exactly on whitespace-only texts. *)
Lemma strip_empty_iff s : strip s = [] ↔ whitespace_only s.
Proof.
  unfold strip. rewrite rstrip_empty_iff. split.
  - induction s as [| c s IH]; simpl; [auto |].
    destruct (isspace c) eqn:Hc.
    + intros H. apply whitespace_only_cons; auto.
    + intros [Hc' _]%whitespace_only_cons. congruence.
  - apply lstrip_whitespace_only.
Qed.

(** [strip] computes the trimmed text of the specification. *)
Lemma trimmed_of_strip s t : trimmed_of s t → strip s = t.
Proof.
  intros (l & r & -> & Hl & Hr & Hfirst & Hlast).
  unfold strip. rewrite lstrip_whitespace by assumption.
  destruct t as [| c t].
  - simpl. apply rstrip_empty_iff. apply lstrip_whitespace_only; assumption.
  - rewrite lstrip_first.
    + rewrite rstrip_whitespace by assumption. apply rstrip_last; assumption.
    + simpl. intros d [= <-]. apply Hfirst. reflexivity.
Qed.

Lemma lstrip_split s : ∃ l, s = l ++ lstrip s ∧ whitespace_only l.
Proof.
  induction s as [| c s (l & Hl & Hws)]; simpl.
  - exists []. split; [reflexivity | apply whitespace_only_empty].
  - destruct (isspace c) eqn:Hc.
    + exists (c :: l). cbn [app]. rewrite <- Hl.
      split; [reflexivity | apply whitespace_only_cons; auto].
    + exists []. split; [reflexivity | apply whitespace_only_empty].
Qed.

Lemma rstrip_split s : ∃ r, s = rstrip s ++ r ∧ whitespace_only r.
Proof.
  induction s as [| c s (r & Hr & Hws)]; simpl.
  - exists []. split; [reflexivity | apply whitespace_only_empty].
  - destruct (rstrip s) as [| d t] eqn:Hrs.
    + cbn [app] in Hr. subst s. destruct (isspace c) eqn:Hc.
      * exists (c :: r). split; [reflexivity | apply whitespace_only_cons; auto].
      * exists r. split; [reflexivity | assumption].
    + exists r. cbn [app] in *. rewrite <- Hr. split; [reflexivity | assumption].
Qed.

Lemma lstrip_first_char s c : first_char (lstrip s) = Some c → isspace c = false.
Proof.
  induction s as [| d s IH]; simpl; [discriminate |].
  destruct (isspace d) eqn:Hd; [exact IH |]. simpl. intros [= <-]. assumption.
Qed.

Lemma rstrip_last_char s c : last_char (rstrip s) = Some c → isspace c = false.
Proof.
  induction s as [| d s IH]; simpl; [discriminate |].
  destruct (rstrip s) as [| d' t] eqn:Hrs.
  - destruct (isspace d) eqn:Hd; simpl; [discriminate |]. intros [= <-]. assumption.
  - exact IH.
Qed.

Lemma rstrip_first_char s c : first_char (rstrip s) = Some c → first_char s = Some c.
Proof.
  destruct s as [| d s]; simpl; [discriminate |].
  destruct (rstrip s); [destruct (isspace d) |]; simpl; congruence.
Qed.

(** Every text has a trimmed text, and [strip] returns it. *)
Lemma strip_is_trimmed s : trimmed_of s (strip s).
Proof.
  destruct (lstrip_split s) as (l & Hl & Hlws).
  destruct (rstrip_split (lstrip s)) as (r & Hr & Hrws).
  exists l, r. unfold strip. repeat split; try assumption.
  - rewrite <- Hr. exact Hl.
  - intros c Hc. apply rstrip_first_char in Hc. eapply lstrip_first_char, Hc.
  - apply rstrip_last_char.
Qed.

(** [startswith] is the prefix test. *)
Lemma startswith_iff s p : startswith s p = true ↔ ∃ rest, s = p ++ rest.
Proof.
  revert s. induction p as [| a p IH]; intros s.
  - destruct s; simpl; split; eauto.
  - destruct s as [| b s]; simpl.
    + split; [discriminate | intros [rest Hrest]; discriminate Hrest].
    + rewrite andb_true_iff, N.eqb_eq, IH. split.
      * intros [-> [rest ->]]. eauto.
      * intros [rest [= -> ->]]. eauto.
Qed.

Lemma upper_app s t : upper (s ++ t) = upper s ++ upper t.
Proof. unfold upper. apply flat_map_app. Qed.

(** The upper-casing of an ASCII letter of SELECT, in either case. *)
Lemma upper_char_letter (c u l : N) :
  In (u, l) SELECT_letters → c = u ∨ c = l → upper_char c = [u].
Proof.
  intros Hin Hc. simpl in Hin.
  destruct Hin as [E | [E | [E | [E | [E | [E | []]]]]]]; inversion E; subst;
    destruct Hc as [-> | ->]; reflexivity.
Qed.

(** Among the ASCII characters only the two cases of a letter of SELECT
    upper-case to it. *)
Lemma upper_char_ascii (c u l : N) :
  In (u, l) SELECT_letters → (c < 128)%N → upper_char c = [u] → c = u ∨ c = l.
Proof.
  intros Hin Hc. unfold upper_char.
  apply N.ltb_lt in Hc. rewrite Hc.
  destruct ((97 <=? c)%N && (c <=? 122)%N) eqn:Hlow.
  - apply andb_prop in Hlow as [H1%N.leb_le H2%N.leb_le].
    simpl in Hin.
    destruct Hin as [E | [E | [E | [E | [E | [E | []]]]]]]; inversion E; subst;
      intros [= H]; right; lia.
  - intros [= H]. left. assumption.
Qed.

Lemma begins_nocase_upper letters t :
  (∀ x, In x letters → In x SELECT_letters) →
  begins_nocase letters t → ∃ rest, upper t = letters_text letters ++ rest.
Proof.
  revert t. induction letters as [| [u l] letters IH]; intros t Hsub.
  - intros _. exists (upper t). reflexivity.
  - destruct t as [| c t]; cbn [begins_nocase]; [contradiction |].
    intros [Hc Ht].
    destruct (IH t) as [rest Hrest]; [intros x Hx; apply Hsub; right; assumption | exact Ht |].
    exists rest. change (upper (c :: t)) with (upper_char c ++ upper t).
    rewrite (upper_char_letter c u l) by (first [apply Hsub; left; reflexivity | assumption]).
    rewrite Hrest. reflexivity.
Qed.

Lemma upper_ascii_begins letters t :
  (∀ x, In x letters → In x SELECT_letters) →
  Forall (λ c, (c < 128)%N) t →
  (∃ rest, upper t = letters_text letters ++ rest) → begins_nocase letters t.
Proof.
  revert t. induction letters as [| [u l] letters IH]; intros t Hsub Hascii; [intros _; exact I |].
  destruct Hascii as [| c t Hc Ht].
  - intros [rest Hrest]. discriminate Hrest.
  - change (upper (c :: t)) with (upper_char c ++ upper t).
    intros [rest Hrest].
    assert (∃ x, upper_char c = [x]) as [x Hx].
    { unfold upper_char. apply N.ltb_lt in Hc. rewrite Hc. eauto. }
    rewrite Hx in Hrest. cbn [letters_text map fst app] in Hrest.
    injection Hrest as -> Hrest.
    cbn [begins_nocase]. split.
    + apply (upper_char_ascii c u l); [apply Hsub; left; reflexivity | assumption | assumption].
    + apply IH; [intros y Hy; apply Hsub; right; assumption | assumption | eauto].
Qed.

(** A text that begins with SELECT in some mix of cases begins with
    SELECT once upper-cased; for ASCII text the converse holds too. *)
Lemma begins_with_select_upper t : begins_with_select t → upper_begins_with_select t.
Proof. apply (begins_nocase_upper SELECT_letters). auto. Qed.

Lemma upper_begins_with_select_ascii t :
  Forall (λ c, (c < 128)%N) t → upper_begins_with_select t → begins_with_select t.
Proof. intros Hascii. apply (upper_ascii_begins SELECT_letters); auto. Qed.

(** The prefix test of the code is the upper-cased SELECT of the
    vocabulary. *)
Lemma startswith_select_iff t :
  startswith (upper t) "SELECT" = true ↔ upper_begins_with_select t.
Proof. apply startswith_iff. Qed.

(** Whatever the code refuses, the letter-by-letter reading refuses. *)
Lemma refused_query_by_letters q : refused_query q → refused_by_letters q.
Proof.
  destruct q as [| b | n | s]; simpl; auto.
  intros [Hws | (t & Htrim & Hsel)]; [left; assumption |].
  right. exists t. split; [assumption |].
  intros Hb. apply Hsel, begins_with_select_upper, Hb.
Qed.

(** ** Upper-casing beyond ASCII *)

Lemma in_run_members c run : in_run c run = true → In c (run_members run).
Proof.
  destruct run as [[[first last] step] image]. unfold in_run, run_members.
  intros H. apply andb_prop in H as [H Hmod]. apply andb_prop in H as [Hlo Hhi].
  apply N.leb_le in Hlo, Hhi. apply N.eqb_eq in Hmod.
  apply in_map_iff. exists (N.to_nat ((c - first) / step)). split.
  - rewrite N2Nat.id. pose proof (N.div_mod' (c - first) step) as Hdiv.
    rewrite Hmod in Hdiv. nia.
  - apply in_seq. split; [apply Nat.le_0_l |].
    assert ((c - first) / step ≤ (last - first) / step)%N as Hle
      by (apply N.Div0.div_le_mono; lia).
    revert Hle. generalize ((c - first) / step)%N ((last - first) / step)%N.
    intros q1 q2 Hle. lia.
Qed.

Lemma unicode_upper_default c : ¬ In c changed_by_upper → unicode_upper c = [c].
Proof.
  intros Hnot. unfold unicode_upper.
  destruct (List.find (λ entry, (entry.1 =? c)%N) upper_special) as [[k u] |] eqn:Hspecial.
  - exfalso. apply Hnot. apply find_some in Hspecial as [Hin Hk].
    apply N.eqb_eq in Hk. cbn in Hk. subst k.
    apply in_or_app. left. apply in_map_iff. exists (c, u). auto.
  - destruct (List.find (in_run c) upper_simple) as [[[[first last] step] image] |] eqn:Hrun;
      [| reflexivity].
    exfalso. apply Hnot. apply find_some in Hrun as [Hin Hc].
    apply in_or_app. right. apply in_flat_map. eexists. split; [exact Hin |].
    apply in_run_members, Hc.
Qed.

(** A test that holds of the ASCII characters, of the characters the
    tables list and of every character [str.upper] leaves alone holds
    of all characters. *)
Lemma every_char (P : N → bool) :
  forallb P ascii_chars = true →
  forallb P changed_by_upper = true →
  (∀ c, (128 ≤ c)%N → ¬ In c changed_by_upper → upper_char c = [c] → P c = true) →
  ∀ c, P c = true.
Proof.
  intros Hascii Htable Hdefault c. destruct (N.ltb_spec c 128) as [Hlt | Hge].
  - rewrite forallb_forall in Hascii. apply Hascii. apply in_map_iff.
    exists (N.to_nat c). split; [apply N2Nat.id | apply in_seq; lia].
  - destruct (in_dec N.eq_dec c changed_by_upper) as [Hin | Hnot].
    + rewrite forallb_forall in Htable. auto.
    + apply Hdefault; [assumption | assumption |].
      unfold upper_char. apply N.ltb_ge in Hge. rewrite Hge.
      apply unicode_upper_default, Hnot.
Qed.

Lemma form_ok_all (X : N) (fs next : list N) :
  (X < 128)%N →
  forallb (λ f, (f <? 128)%N || existsb (N.eqb f) changed_by_upper) fs = true →
  forallb (form_ok X fs next) ascii_chars = true →
  forallb (form_ok X fs next) changed_by_upper = true →
  ∀ c, form_ok X fs next c = true.
Proof.
  intros HX Hfs Hascii Htable. apply every_char; [assumption | assumption |].
  intros c Hge Hnot Hup. unfold form_ok. rewrite Hup.
  destruct (N.eqb_spec c X) as [-> | _]; [lia |].
  apply negb_true_iff. destruct (existsb (N.eqb c) fs) eqn:Hin; [| reflexivity].
  exfalso. apply existsb_exists in Hin as (f & Hf & ->%N.eqb_eq).
  rewrite forallb_forall in Hfs. specialize (Hfs _ Hf).
  apply orb_prop in Hfs as [Hlt%N.ltb_lt | Hin]; [lia |].
  apply Hnot. apply existsb_exists in Hin as (g & Hg & ->%N.eqb_eq). exact Hg.
Qed.

Lemma SELECT_forms_checked : forms_checked SELECT_forms.
Proof.
  repeat split; apply form_ok_all; vm_compute; reflexivity.
Qed.

Lemma existsb_eqb_In (c : N) (fs : list N) : existsb (N.eqb c) fs = true ↔ In c fs.
Proof.
  rewrite existsb_exists. split.
  - intros (f & Hf & ->%N.eqb_eq). exact Hf.
  - intros Hc. exists c. split; [assumption | apply N.eqb_refl].
Qed.

(** Upper-cased, a text begins with the letters exactly when it begins
    with one form of each. *)
Lemma upper_begins_forms forms t :
  forms_checked forms →
  (∃ rest, upper t = map fst forms ++ rest) ↔ begins_with_forms forms t.
Proof.
  revert t. induction forms as [| [X fs] forms IH]; intros t Hchk.
  - simpl. split; [auto | intros _; eauto].
  - destruct Hchk as [Hok Hchk]. cbn [map fst begins_with_forms app].
    destruct t as [| c t].
    + split; [intros [rest H]; discriminate H | contradiction].
    + change (upper (c :: t)) with (upper_char c ++ upper t).
      specialize (Hok c). unfold form_ok in Hok.
      destruct (upper_char c) as [| x more]; [discriminate |].
      destruct (N.eqb_spec x X) as [-> | Hne].
      * destruct (existsb (N.eqb c) fs) eqn:Hin.
        -- apply existsb_eqb_In in Hin. destruct more as [| y more].
           ++ cbn [app]. split.
              ** intros [rest [= Hrest]]. split; [assumption |]. apply IH; eauto.
              ** intros [_ Hb]. apply IH in Hb as [rest Hrest]; [| assumption].
                 exists rest. rewrite Hrest. reflexivity.
           ++ destruct forms as [| [Y fs'] forms]; [| discriminate Hok].
              cbn. split; [intros _; split; [assumption | exact I] | intros _; eauto].
        -- assert (¬ In c fs) as Hnot by (rewrite <- existsb_eqb_In; congruence).
           split; [| intros [Hc _]; contradiction].
           intros [rest Hrest]. exfalso.
           destruct more as [| y more]; [discriminate Hok |].
           destruct forms as [| [Y fs'] forms]; [discriminate Hok |].
           cbn in Hrest. injection Hrest as Hy _.
           apply negb_true_iff, N.eqb_neq in Hok. contradiction.
      * apply negb_true_iff in Hok.
        assert (¬ In c fs) as Hnot by (rewrite <- existsb_eqb_In; congruence).
        split; [| intros [Hc _]; contradiction].
        intros [rest [= Hx _]]. contradiction.
Qed.

(** The prefix test of the code, said without [str.upper]. *)
Lemma upper_begins_with_select_forms t :
  upper_begins_with_select t ↔ begins_with_forms SELECT_forms t.
Proof. apply (upper_begins_forms SELECT_forms), SELECT_forms_checked. Qed.

(** ** Fetching: validation comes first *)

Lemma truthy_strip_false s : truthy (VStr (strip s)) = false ↔ whitespace_only s.
Proof.
  rewrite <- strip_empty_iff. simpl.
  destruct (strip s); split; intros; congruence.
Qed.

Lemma refused_query_raises (self : Env) (w : World) :
  refused_query (db_query (options self)) →
  ∃ error,
    (error = "Query must be a non-empty string" ∨
     error = "Database query must be a valid SELECT statement") ∧
    _get_raw_hosts self w = ([Display Lerror error []], w, Raise (AnsibleError error)).
Proof.
  unfold _get_raw_hosts, refused_query.
  destruct (db_query (options self)) as [| b | n | s]; intros Href;
    try (eexists; split; [left; reflexivity | reflexivity]).
  destruct (truthy (VStr (strip s))) eqn:Htruthy.
  - destruct Href as [Hws | (t & Htrim & Hsel)].
    + apply truthy_strip_false in Hws. congruence.
    + apply trimmed_of_strip in Htrim. subst t.
      rewrite <- startswith_select_iff in Hsel.
      apply not_true_is_false in Hsel.
      eexists; split; [right; reflexivity |].
      unfold with_local. cbn [negb]. rewrite Hsel. reflexivity.
  - eexists; split; [left; reflexivity |].
    unfold with_local. cbn [negb]. reflexivity.
Qed.

(** The tests of the code and the refusal agree: a query that is not
    refused passes validation, and the first thing [_get_raw_hosts]
    then does is to call [connect]. *)
Lemma accepted_query_connects (self : Env) (w : World) :
  ¬ refused_query (db_query (options self)) →
  ∃ evs, events (_get_raw_hosts self w) = DbConnect (connect_params self) :: evs.
Proof.
  unfold refused_query, _get_raw_hosts.
  destruct (db_query (options self)) as [| b | n | s]; try (intros H; exfalso; exact (H I)).
  intros Hok.
  destruct (truthy (VStr (strip s))) eqn:Htruthy.
  - destruct (startswith (upper (strip s)) "SELECT") eqn:Hsel.
    + cbn [negb]. unfold events.
      fetch_cases self s ltac:(cbn; eauto).
    + exfalso. apply Hok. right. exists (strip s). split; [apply strip_is_trimmed |].
      rewrite <- startswith_select_iff. congruence.
  - exfalso. apply Hok. left. apply truthy_strip_false. assumption.
Qed.

(** A query that is not refused is a text that passes both tests of
    [_get_raw_hosts]. *)
Lemma accepted_query_text (self : Env) :
  ¬ refused_query (db_query (options self)) →
  ∃ query, db_query (options self) = VStr query ∧
           truthy (VStr (strip query)) = true ∧
           startswith (upper (strip query)) "SELECT" = true.
Proof.
  unfold refused_query.
  destruct (db_query (options self)) as [| b | n | s]; try (intros H; exfalso; exact (H I)).
  intros Hok. exists s. split; [reflexivity |].
  destruct (truthy (VStr (strip s))) eqn:Htruthy.
  - split; [reflexivity |].
    destruct (startswith (upper (strip s)) "SELECT") eqn:Hsel; [reflexivity |].
    exfalso. apply Hok. right. exists (strip s). split; [apply strip_is_trimmed |].
    rewrite <- startswith_select_iff. congruence.
  - exfalso. apply Hok. left. apply truthy_strip_false. assumption.
Qed.

(** The exits of the validated part of [_get_raw_hosts], keeping what
    is known of each exception. *)
Ltac fetch_exits self query tac :=
  unfold_fetch; unfold_eff;
  destruct (srv_connect (server self) (connect_params self)) as [? |] eqn:Hconn;
  [ destruct (is_Exception _) eqn:Hexc; tac |];
  destruct (srv_cursor (server self)) as [? |] eqn:Hcur;
  [ destruct (is_Exception _) eqn:Hexc; tac |];
  destruct (srv_execute (server self) query) as [? |] eqn:Hexe;
  [ destruct (is_Exception _) eqn:Hexc; tac |];
  destruct (srv_fetchall (server self) query) as [? | ?] eqn:Hfetch;
  [ tac | destruct (is_Exception _) eqn:Hexc; tac ].

Ltac fetch_validated self H query :=
  let Hq := fresh "Hq" in
  let Ht := fresh "Ht" in
  let Hs := fresh "Hs" in
  destruct (accepted_query_text self H) as (query & Hq & Ht & Hs);
  unfold _get_raw_hosts, with_local; rewrite Hq, Ht, Hs; cbn [negb].

(** [_get_raw_hosts] leaves the whole world as it found it, however it
    ends. *)
Lemma get_raw_hosts_world (self : Env) (w : World) : final (_get_raw_hosts self w) = w.
Proof.
  destruct w as [c i n].
  unfold _get_raw_hosts, with_local, config_error, final.
  destruct (db_query (options self)) as [| b | k | query]; try reflexivity.
  destruct (negb (truthy _)); [reflexivity |].
  destruct (negb (startswith _ _)); [reflexivity |].
  fetch_cases self query ltac:(reflexivity).
Qed.

Lemma passing_tests_not_refused (s : text) :
  truthy (VStr (strip s)) = true →
  startswith (upper (strip s)) "SELECT" = true →
  ¬ refused_query (VStr s).
Proof.
  intros Ht Hs [Hws | (t & Htrim & Hsel)].
  - apply truthy_strip_false in Hws. congruence.
  - apply trimmed_of_strip in Htrim. subst t. apply Hsel, startswith_select_iff, Hs.
Qed.

(** A query option value is refused or it is not: the two tests of the
    code decide. *)
Lemma refused_query_decide (q : value) : refused_query q ∨ ¬ refused_query q.
Proof.
  destruct q as [| b | n | s]; try (left; exact I).
  destruct (truthy (VStr (strip s))) eqn:Ht.
  - destruct (startswith (upper (strip s)) "SELECT") eqn:Hs.
    + right. apply passing_tests_not_refused; assumption.
    + left. right. exists (strip s). split; [apply strip_is_trimmed |].
      rewrite <- startswith_select_iff. congruence.
  - left. left. apply truthy_strip_false, Ht.
Qed.

(** The calls of a validated fetch: [connect] comes first, and the text
    of the query option is executed, once, exactly when the connection
    and the cursor could be opened. *)
Lemma get_raw_hosts_calls (self : Env) (w : World) :
  ¬ refused_query (db_query (options self)) →
  ∃ query, db_query (options self) = VStr query ∧
    (∃ evs, events (_get_raw_hosts self w) = DbConnect (connect_params self) :: evs) ∧
    match srv_connect (server self) (connect_params self), srv_cursor (server self) with
    | None, None =>
        In (DbExecute query) (events (_get_raw_hosts self w)) ∧
        count_events is_execute (events (_get_raw_hosts self w)) = 1
    | _, _ => count_events is_execute (events (_get_raw_hosts self w)) = 0
    end.
Proof.
  intros Hok. destruct (accepted_query_text self Hok) as (query & Hq & Ht & Hs).
  exists query. split; [exact Hq |].
  unfold _get_raw_hosts, with_local. rewrite Hq, Ht, Hs. cbn [negb].
  unfold events, count_events.
  fetch_cases self query ltac:(cbn; repeat split; first [reflexivity | eauto 12 | tauto]).
Qed.

(** A refusal worked out: text, trimmed text and the head of its
    upper-casing. *)
Lemma refused_query_intro (s l t r : text) :
  s = l ++ t ++ r →
  forallb isspace l = true → forallb isspace r = true →
  match first_char t with Some c => isspace c | None => false end = false →
  match last_char t with Some c => isspace c | None => false end = false →
  startswith (upper t) "SELECT" = false →
  refused_query (VStr s).
Proof.
  intros -> Hl Hr Hfirst Hlast Hsel. right. exists t. split.
  - exists l, r. repeat split.
    + intros c Hc. rewrite forallb_forall in Hl. auto.
    + intros c Hc. rewrite forallb_forall in Hr. auto.
    + intros c Hc. rewrite Hc in Hfirst. exact Hfirst.
    + intros c Hc. rewrite Hc in Hlast. exact Hlast.
  - rewrite <- startswith_select_iff. congruence.
Defined.

(** C1, as the code has it.  Whenever the query option is not a
    string, is empty or whitespace-only, or has a trimmed text whose
    upper-casing does not begin with SELECT, [_get_raw_hosts] raises the
    configuration error: the only thing it does is display the error,
    no call reaches the database client and the world (open connections
    included) is left as it was.  Every such value is refused by the
    letter-by-letter reading too. *)
Theorem get_raw_hosts_refuses_before_connecting (self : Env) (w : World) :
  refused_query (db_query (options self)) →
  refused_by_letters (db_query (options self)) ∧
  ∃ error,
    (error = "Query must be a non-empty string" ∨
     error = "Database query must be a valid SELECT statement") ∧
    _get_raw_hosts self w = ([Display Lerror error []], w, Raise (AnsibleError error)) ∧
    no_db_event (events (_get_raw_hosts self w)) ∧
    w_open (final (_get_raw_hosts self w)) = w_open w.
Proof.
  intros Href. split; [apply refused_query_by_letters, Href |].
  destruct (refused_query_raises self w Href) as (error & Herr & Hrun).
  exists error. rewrite Hrun. repeat split; assumption.
Qed.

Lemma get_raw_hosts_refuses_witness :
  refused_by_letters (VStr " DROP TABLE x") ∧
  ∃ error,
    (error = "Query must be a non-empty string" ∨
     error = "Database query must be a valid SELECT statement") ∧
    _get_raw_hosts (Sample.env (VStr " DROP TABLE x") true (Sample.server_ok []))
      Sample.world0
    = ([Display Lerror error []], Sample.world0, Raise (AnsibleError error)) ∧
    no_db_event (events (_get_raw_hosts
                           (Sample.env (VStr " DROP TABLE x") true (Sample.server_ok []))
                           Sample.world0)) ∧
    w_open (final (_get_raw_hosts
                     (Sample.env (VStr " DROP TABLE x") true (Sample.server_ok []))
                     Sample.world0)) = w_open Sample.world0.
Proof.
  apply (get_raw_hosts_refuses_before_connecting
           (Sample.env (VStr " DROP TABLE x") true (Sample.server_ok [])) Sample.world0).
  apply (refused_query_intro _ " " "DROP TABLE x" ""); reflexivity.
Defined.

(** The long s upper-cases to S: a query that begins with it followed
    by "elect" does not begin with SELECT in any mix of upper-case and
    lower-case letters, and yet it passes validation; [_get_raw_hosts]
    connects and executes it.  The same holds with the t with diaeresis
    in the place of the T. *)
Lemma get_raw_hosts_long_s_counterexample :
  let self := Sample.env (VStr "ſelect 1") false (Sample.server_ok Sample.rows_h1) in
  "ſelect 1"%text = [383; 101; 108; 101; 99; 116; 32; 49]%N ∧
  upper "ſelect 1" = "SELECT 1"%text ∧
  refused_by_letters (db_query (options self)) ∧
  outcome (_get_raw_hosts self Sample.world0) = Ok Sample.rows_h1 ∧
  List.filter is_db_event (events (_get_raw_hosts self Sample.world0))
  = [DbConnect (connect_params self); DbCursor; DbExecute "ſelect 1"; DbFetchAll;
     DbCursorClose; DbClose] ∧
  "selecẗ 1"%text = [115; 101; 108; 101; 99; 7831; 32; 49]%N ∧
  upper "selecẗ 1" = [83; 69; 76; 69; 67; 84; 776; 32; 49]%N ∧
  refused_by_letters (VStr "selecẗ 1") ∧
  ∃ evs, events (_get_raw_hosts (Sample.env (VStr "selecẗ 1") false (Sample.server_ok []))
                   Sample.world0)
         = DbConnect (connect_params self) :: evs.
Proof.
  assert (∀ s t : text, s = t → (∀ c, first_char t = Some c → isspace c = false) →
            (∀ c, last_char t = Some c → isspace c = false) →
            ¬ begins_with_select t → refused_by_letters (VStr s)) as Hrefused.
  { intros s t -> Hfirst Hlast Hsel. right. exists t. split; [| exact Hsel].
    exists [], []. rewrite app_nil_r.
    repeat split; [intros c [] | intros c [] | exact Hfirst | exact Hlast]. }
  intros self. split; [reflexivity |]. split; [reflexivity |].
  split; [| split; [| split; [| split; [| split; [| split]]]]].
  - apply (Hrefused _ "ſelect 1"%text); [reflexivity | | |].
    + intros c [= <-]. reflexivity.
    + intros c [= <-]. reflexivity.
    + intros [[E | E] _]; discriminate E.
  - reflexivity.
  - reflexivity.
  - reflexivity.
  - reflexivity.
  - apply (Hrefused _ "selecẗ 1"%text); [reflexivity | | |].
    + intros c [= <-]. reflexivity.
    + intros c [= <-]. reflexivity.
    + intros (_ & _ & _ & _ & _ & [E | E] & _); discriminate E.
  - eexists. reflexivity.
Qed.

(** ** The inventory accumulator *)

Section Accumulator.
Import InventoryData.

Lemma add_once_elem x y l : y ∈ add_once x l ↔ y = x ∨ y ∈ l.
Proof.
  unfold add_once. case_decide.
  - split; [auto | intros [-> | ?]; assumption].
  - rewrite elem_of_app, list_elem_of_singleton. tauto.
Qed.

Lemma add_once_idem x l : add_once x (add_once x l) = add_once x l.
Proof.
  unfold add_once at 1. rewrite decide_True; [reflexivity |].
  apply add_once_elem. left. reflexivity.
Qed.

Lemma add_once_count x l :
  count_occ value_eq_dec (add_once x l) x = Nat.max 1 (count_occ value_eq_dec l x).
Proof.
  unfold add_once. case_decide as Hin.
  - apply list_elem_of_In, (count_occ_In value_eq_dec) in Hin. lia.
  - rewrite count_occ_app. simpl.
    destruct (value_eq_dec x x) as [_ | Hne]; [| contradiction].
    assert (count_occ value_eq_dec l x = 0) as ->; [| reflexivity].
    apply count_occ_not_In. rewrite <- list_elem_of_In. assumption.
Qed.

Lemma members_add_host host group inv :
  members (add_host host group inv) group = add_once host (members inv group).
Proof. unfold members at 1. simpl. rewrite lookup_insert_eq. reflexivity. Qed.

Lemma members_add_host_ne host group g inv :
  group ≠ g → members (add_host host group inv) g = members inv g.
Proof. intros Hne. unfold members. simpl. rewrite lookup_insert_ne by assumption. reflexivity. Qed.

Lemma add_host_idem host group inv :
  add_host host group (add_host host group inv) = add_host host group inv.
Proof.
  unfold add_host at 1. rewrite members_add_host. simpl.
  rewrite !add_once_idem, insert_insert_eq. reflexivity.
Qed.

Lemma extends_refl inv : extends inv inv.
Proof. repeat split; auto. Qed.

Lemma extends_trans a b c : extends a b → extends b c → extends a c.
Proof.
  intros (H1 & H2 & H3) (K1 & K2 & K3). repeat split; auto.
Qed.

Lemma add_host_extends host group inv : extends inv (add_host host group inv).
Proof.
  repeat split.
  - intros h Hh. simpl. apply add_once_elem. auto.
  - intros g h Hh. destruct (decide (group = g)) as [<- | Hne].
    + rewrite members_add_host. apply add_once_elem. auto.
    + rewrite members_add_host_ne by assumption. assumption.
  - auto.
Qed.

Lemma set_variable_extends host name val inv : extends inv (set_variable host name val inv).
Proof.
  repeat split; auto.
  intros h n. unfold get_variable. simpl.
  destruct (decide ((host, name) = (h, n))) as [<- | Hne].
  - rewrite lookup_insert_eq. eauto.
  - rewrite lookup_insert_ne by assumption. auto.
Qed.

End Accumulator.

(** C8.  Registering a host into a group twice leaves the inventory
    exactly as registering it once does, and the host then counts once
    among the members of the group and among the hosts whenever it
    counted at most once before (in general: as often as before, and at
    least once).  So it is with the two registrations into "all" that
    two rows with the same hostname cause: the world after both is the
    world after the first. *)
Theorem add_host_idempotent (host : value) (group : string) (inv : InventoryData.t)
    (w : World) :
  InventoryData.add_host host group (InventoryData.add_host host group inv)
  = InventoryData.add_host host group inv ∧
  count_occ value_eq_dec
    (InventoryData.members
       (InventoryData.add_host host group (InventoryData.add_host host group inv)) group) host
  = Nat.max 1 (count_occ value_eq_dec (InventoryData.members inv group) host) ∧
  count_occ value_eq_dec
    (InventoryData.hosts
       (InventoryData.add_host host group (InventoryData.add_host host group inv))) host
  = Nat.max 1 (count_occ value_eq_dec (InventoryData.hosts inv) host) ∧
  final ((inventory_add_host host "all";; inventory_add_host host "all") w)
  = final (inventory_add_host host "all" w) ∧
  outcome ((inventory_add_host host "all";; inventory_add_host host "all") w) = Ok tt.
Proof.
  rewrite add_host_idem. split; [reflexivity |]. split; [| split; [| split]].
  - rewrite members_add_host. apply add_once_count.
  - simpl. apply add_once_count.
  - unfold inventory_add_host. unfold_eff. unfold final, set_inventory. cbn.
    rewrite add_host_idem. reflexivity.
  - reflexivity.
Qed.


(** ** Fetching: the connection is released *)

(** C5.  Whatever the server answers and however [_get_raw_hosts]
    exits (rows returned, configuration error, wrapped database error,
    or an exception that [except Exception] lets through), the number
    of open connections is afterwards what it was before; the call
    opens at most one connection and issues one [close] per connection
    it opened; and when it has opened one, that [close] is the last
    call it makes. *)
Theorem get_raw_hosts_releases_connection (self : Env) (w : World) :
  let o := _get_raw_hosts self w in
  w_open (final o) = w_open w ∧
  count_events is_close (events o)
  = count_events (is_successful_connect (server self)) (events o) ∧
  (count_events (is_successful_connect (server self)) (events o) ≤ 1)%nat ∧
  (count_events (is_successful_connect (server self)) (events o) = 0
   ∨ ends_with_close (events o) = true).
Proof.
  intros o; subst o.
  unfold _get_raw_hosts, with_local, config_error, count_events, events, final.
  destruct (db_query (options self)) as [| b | n | query]; try (cbn; repeat split; lia).
  destruct (negb (truthy _)); [cbn; repeat split; lia |].
  destruct (negb (startswith _ _)); [cbn; repeat split; lia |].
  fetch_cases self query
    ltac:(cbn; rewrite Hconn; cbn; repeat split; first [lia | right; reflexivity]).
Qed.

(** ** Running loops and rows *)

Lemma for_each_app {S A} (body : A → M S unit) (xs ys : list A) (s : S) :
  for_each body (xs ++ ys) s =
  match for_each body xs s with
  | (ev, s', Ok _) =>
      match for_each body ys s' with
      | (ev', s'', r) => (ev ++ ev', s'', r)
      end
  | (ev, s', Raise e) => (ev, s', Raise e)
  end.
Proof.
  revert s. induction xs as [| x xs IH]; intros s; simpl.
  - unfold ret. destruct (for_each body ys s) as [[ev s'] r]. reflexivity.
  - unfold bind. destruct (body x s) as [[ev s'] [[] | e]]; [| reflexivity].
    rewrite IH. destruct (for_each body xs s') as [[ev1 s1] [[] | e1]]; [| reflexivity].
    destruct (for_each body ys s1) as [[ev2 s2] r2]. rewrite app_assoc. reflexivity.
Qed.

Section Rows.
Context (self : Env).

Lemma set_host_variables_run hostname items w :
  set_host_variables hostname items w
  = (set_variables_script hostname items,
     set_inventory (set_variables hostname items) w, Ok tt).
Proof.
  unfold set_host_variables. revert w.
  induction items as [| item items IH]; intros w.
  - destruct w. reflexivity.
  - cbn [for_each]. unfold bind at 1. unfold bind at 1.
    unfold inventory_set_variable at 1. unfold_eff. cbn [app].
    rewrite IH. reflexivity.
Qed.

(** The world in which the inventory is [inv] and the rest is as in
    [w]. *)
Lemma add_host_run hostname fields w :
  let strict := strict (options self) in
  let row := RowDict fields in
  let head :=
    [AddHost hostname "all";
     Display Lvvvv "Added host {hostname} to group 'all'" [AVal hostname]]
    ++ set_variables_script hostname fields in
  let inv2 :=
    set_variables hostname fields (InventoryData.add_host hostname "all" (w_inventory w)) in
  let m1 := set_composite_vars (constructable self) (compose (options self))
              row hostname strict inv2 in
  let m2 := add_host_to_composed_groups (constructable self) (groups (options self))
              row hostname strict (fst m1) in
  let m3 := add_host_to_keyed_groups (constructable self) (keyed_groups (options self))
              row hostname strict (fst m2) in
  _add_host self hostname row w =
  match snd m1 with
  | Raise e =>
      (head ++ [SetCompositeVars hostname row strict],
       set_inventory (λ _, fst m1) w, Raise e)
  | Ok _ =>
      match snd m2 with
      | Raise e =>
          (head ++ [SetCompositeVars hostname row strict;
                    AddHostToComposedGroups hostname row strict],
           set_inventory (λ _, fst m2) w, Raise e)
      | Ok _ =>
          match snd m3 with
          | Raise e =>
              (head ++ [SetCompositeVars hostname row strict;
                        AddHostToComposedGroups hostname row strict;
                        AddHostToKeyedGroups hostname row strict],
               set_inventory (λ _, fst m3) w, Raise e)
          | Ok _ =>
              (add_host_script strict hostname fields,
               set_inventory (λ _, fst m3) w, Ok tt)
          end
      end
  end.
Proof.
  intros strict row head inv2 m1 m2 m3.
  subst strict row head inv2 m1 m2 m3.
  unfold _add_host, add_host_script.
  unfold bind at 1. unfold inventory_add_host at 1. unfold_eff.
  cbn [app row_items]. rewrite set_host_variables_run.
  unfold _set_composite_vars, _add_host_to_composed_groups, _add_host_to_keyed_groups,
    call_inherited.
  cbn [w_inventory set_inventory].
  destruct (set_composite_vars _ _ _ _ _ _) as [i1 [[] | e1]]; cbn [fst snd];
    [| reflexivity].
  destruct (add_host_to_composed_groups _ _ _ _ _ _) as [i2 [[] | e2]]; cbn [fst snd];
    [| rewrite <- ?app_assoc; reflexivity].
  destruct (add_host_to_keyed_groups _ _ _ _ _ _) as [i3 [[] | e3]]; cbn [fst snd];
    rewrite <- ?app_assoc; reflexivity.
Qed.

Lemma set_variables_script_kinds hostname fields :
  List.filter is_add_host (set_variables_script hostname fields) = [] ∧
  List.filter is_warning (set_variables_script hostname fields) = [] ∧
  forallb is_display_or_inventory (set_variables_script hostname fields) = true.
Proof.
  induction fields as [| item fields (IH1 & IH2 & IH3)]; simpl; auto.
Qed.


Lemma set_variables_extends hostname fields inv :
  InventoryData.extends inv (set_variables hostname fields inv).
Proof.
  revert inv. induction fields as [| item fields IH]; intros inv; simpl.
  - apply extends_refl.
  - eapply extends_trans; [apply set_variable_extends | apply IH].
Qed.

(** What [_add_host] leaves untouched and which calls it makes, however
    it ends. *)
Lemma add_host_frame hostname fields w :
  let o := _add_host self hostname (RowDict fields) w in
  w_cache (final o) = w_cache w ∧ w_open (final o) = w_open w ∧
  List.filter is_add_host (events o) = [AddHost hostname "all"] ∧
  List.filter is_warning (events o) = [] ∧
  forallb is_display_or_inventory (events o) = true ∧
  events o `prefix_of` add_host_script (strict (options self)) hostname fields.
Proof.
  intros o. subst o. rewrite add_host_run. unfold add_host_script.
  destruct (set_variables_script_kinds hostname fields) as (K1 & K2 & K3).
  repeat case_match; unfold events, final; cbn [fst snd w_cache w_open set_inventory];
    cbn [app List.filter is_add_host is_warning forallb is_display_or_inventory
         is_display is_inventory_event orb andb];
    rewrite ?List.filter_app, ?forallb_app, ?K1, ?K2, ?K3;
    (repeat split; try reflexivity);
    first [ exists []; rewrite app_nil_r; reflexivity
          | eexists; cbn [app]; rewrite <- app_assoc; cbn [app]; reflexivity ].
Qed.


Lemma add_host_extends_world hostname fields w :
  all_methods only_adds (constructable self) →
  InventoryData.extends (w_inventory w)
    (w_inventory (final (_add_host self hostname (RowDict fields) w))).
Proof.
  intros (H1 & H2 & H3). rewrite add_host_run.
  assert (InventoryData.extends (w_inventory w)
            (set_variables hostname fields
               (InventoryData.add_host hostname "all" (w_inventory w)))) as Hbase.
  { eapply extends_trans; [apply add_host_extends | apply set_variables_extends]. }
  repeat case_match; unfold final; cbn [fst snd w_inventory set_inventory];
    repeat (eapply extends_trans; [| first [apply H3 | apply H2 | apply H1]]);
    exact Hbase.
Qed.

Lemma populate_row_run hf row w :
  populate_row self hf row w =
  match row with
  | RowOther v =>
      ([Display Lerror (parsing_failure (no_attribute v "get")) []], w,
       Raise (AnsibleError (parsing_failure (no_attribute v "get"))))
  | RowDict fields =>
      let hostname := dict_get fields hf in
      if truthy hostname then
        match _add_host self hostname row w with
        | (ev, w', Ok u) =>
            (Display Lvvv "Processing host: {hostname}" [AVal hostname] :: ev, w', Ok u)
        | (ev, w', Raise e) =>
            if is_Exception e then
              (Display Lvvv "Processing host: {hostname}" [AVal hostname] :: ev
               ++ [Display Lerror (parsing_failure e) []], w',
               Raise (AnsibleError (parsing_failure e)))
            else
              (Display Lvvv "Processing host: {hostname}" [AVal hostname] :: ev, w', Raise e)
        end
      else ([skip_warning row], w, Ok tt)
  end.
Proof.
  unfold populate_row, populate_suite, populate_handler, parsing_failure, skip_warning.
  destruct row as [fields | v]; [| reflexivity].
  unfold_eff. cbn [row_get].
  destruct (truthy (dict_get fields hf)); [| reflexivity].
  destruct (_add_host self (dict_get fields hf) (RowDict fields) w) as [[ev w'] [u | e]];
    cbn [app]; [reflexivity |].
  destruct (is_Exception e); reflexivity.
Qed.

(** What one turn of the loop leaves untouched and which calls it
    makes, however it ends. *)
Lemma populate_row_frame hf row w :
  let o := populate_row self hf row w in
  w_cache (final o) = w_cache w ∧ w_open (final o) = w_open w ∧
  List.filter is_add_host (events o)
  = (if has_hostname hf row then [AddHost (row_hostname hf row) "all"] else []) ∧
  List.filter is_warning (events o) = (if is_skipped hf row then [skip_warning row] else []) ∧
  forallb is_display_or_inventory (events o) = true.
Proof.
  intros o. subst o. rewrite populate_row_run.
  destruct row as [fields | v]; [| repeat split; reflexivity].
  cbn [has_hostname row_hostname is_skipped].
  destruct (truthy (dict_get fields hf)) eqn:Ht; [| repeat split; reflexivity].
  pose proof (add_host_frame (dict_get fields hf) fields w) as (F1 & F2 & F3 & F4 & F5 & _).
  destruct (_add_host self (dict_get fields hf) (RowDict fields) w) as [[ev w'] [u | e]];
    unfold events, final in *; cbn [fst snd negb] in *.
  - cbn [List.filter forallb is_add_host is_warning is_display_or_inventory is_display orb andb].
    rewrite F3, F4, F5. repeat split; assumption.
  - destruct (is_Exception e); cbn [fst snd];
      cbn [List.filter forallb is_add_host is_warning is_display_or_inventory is_display
           orb andb];
      rewrite ?List.filter_app, ?forallb_app, F3, F4, F5; repeat split; assumption.
Qed.


Lemma populate_row_extends hf row w :
  all_methods only_adds (constructable self) →
  InventoryData.extends (w_inventory w)
    (w_inventory (final (populate_row self hf row w))).
Proof.
  intros Hadd. rewrite populate_row_run.
  destruct row as [fields | v]; [| apply extends_refl].
  cbn zeta. destruct (truthy (dict_get fields hf)); [| apply extends_refl].
  pose proof (add_host_extends_world (dict_get fields hf) fields w Hadd) as Hh.
  destruct (_add_host self (dict_get fields hf) (RowDict fields) w) as [[ev w'] [u | e]];
    [exact Hh |].
  destruct (is_Exception e); exact Hh.
Qed.


Lemma for_each_cons {S A} (body : A → M S unit) x xs (s : S) :
  for_each body (x :: xs) s =
  match body x s with
  | (ev, s', Ok _) =>
      match for_each body xs s' with
      | (ev', s'', r) => (ev ++ ev', s'', r)
      end
  | (ev, s', Raise e) => (ev, s', Raise e)
  end.
Proof. reflexivity. Qed.

Lemma populate_run rows w :
  _populate self rows w =
  match for_each (populate_row self (hostname_field (options self))) rows w with
  | (ev, w', r) => (populate_header (hostname_field (options self)) :: ev, w', r)
  end.
Proof.
  unfold _populate. unfold bind at 1. unfold display, emit.
  destruct (for_each _ rows w) as [[ev w'] r]. reflexivity.
Qed.

(** The loop touches neither the cache nor the connections and only
    talks to the display and to the inventory, however it ends. *)
Lemma rows_frame hf rows w :
  let o := for_each (populate_row self hf) rows w in
  w_cache (final o) = w_cache w ∧ w_open (final o) = w_open w ∧
  forallb is_display_or_inventory (events o) = true.
Proof.
  revert w. induction rows as [| row rows IH]; intros w; [repeat split |].
  cbn zeta. rewrite for_each_cons.
  pose proof (populate_row_frame hf row w) as (F1 & F2 & _ & _ & F5).
  destruct (populate_row self hf row w) as [[ev w'] [[] | e]];
    unfold events, final in *; cbn [fst snd] in *; [| repeat split; assumption].
  specialize (IH w') as (G1 & G2 & G3).
  destruct (for_each (populate_row self hf) rows w') as [[ev' w''] r];
    unfold events, final in *; cbn [fst snd] in *.
  rewrite forallb_app, F5, G3, G1, G2. repeat split; assumption.
Qed.



(** The calls of an [_add_host] that returns. *)
Lemma add_host_returns_script hostname fields w :
  outcome (_add_host self hostname (RowDict fields) w) = Ok tt →
  events (_add_host self hostname (RowDict fields) w)
  = add_host_script (strict (options self)) hostname fields.
Proof.
  rewrite add_host_run. cbn zeta.
  repeat case_match; unfold outcome, events; cbn [fst snd]; try discriminate.
  reflexivity.
Qed.

(** A turn of the loop on a mapping with a hostname announces the host
    and runs [_add_host] on the hostname and the row, in the world of
    the turn; an error message may follow. *)
Lemma populate_row_runs_add_host hf fields w :
  truthy (dict_get fields hf) = true →
  ∃ tail,
    events (populate_row self hf (RowDict fields) w)
    = Display Lvvv "Processing host: {hostname}" [AVal (dict_get fields hf)]
      :: events (_add_host self (dict_get fields hf) (RowDict fields) w) ++ tail ∧
    (outcome (populate_row self hf (RowDict fields) w) = Ok tt → tail = []) ∧
    final (populate_row self hf (RowDict fields) w)
    = final (_add_host self (dict_get fields hf) (RowDict fields) w).
Proof.
  intros Ht. rewrite populate_row_run. cbn zeta. rewrite Ht.
  destruct (_add_host self (dict_get fields hf) (RowDict fields) w) as [[ev w'] [u | e]].
  - exists []. rewrite app_nil_r. repeat split.
  - destruct (is_Exception e); eexists; unfold events, outcome, final; cbn [fst snd];
      (split; [| split; [discriminate | reflexivity]]);
      [reflexivity | rewrite app_nil_r; reflexivity].
Qed.

(** The trace of a loop that runs to its end: row after row. *)
Lemma rows_script hf rows w :
  outcome (for_each (populate_row self hf) rows w) = Ok tt →
  events (for_each (populate_row self hf) rows w)
  = flat_map (row_script (strict (options self)) hf) rows.
Proof.
  revert w. induction rows as [| row rows IH]; intros w; [reflexivity |].
  rewrite for_each_cons. cbn [flat_map].
  assert (outcome (populate_row self hf row w) = Ok tt →
          events (populate_row self hf row w) = row_script (strict (options self)) hf row)
    as Hrow.
  { rewrite populate_row_run. destruct row as [fields | v]; [| discriminate].
    cbn [row_script]. cbn zeta. destruct (truthy (dict_get fields hf)); [| reflexivity].
    pose proof (add_host_returns_script (dict_get fields hf) fields w) as Hscript.
    destruct (_add_host self (dict_get fields hf) (RowDict fields) w) as [[ev w'] [[] | e]];
      unfold outcome, events in *; cbn [fst snd] in *.
    - intros _. rewrite Hscript; reflexivity.
    - destruct (is_Exception e); discriminate. }
  destruct (populate_row self hf row w) as [[ev w'] [[] | e]];
    unfold outcome, events in *; cbn [fst snd] in *; [| discriminate].
  specialize (IH w').
  destruct (for_each (populate_row self hf) rows w') as [[ev' w''] r];
    unfold outcome, events in *; cbn [fst snd] in *.
  intros Hok. rewrite (Hrow eq_refl), (IH Hok). reflexivity.
Qed.

Lemma rows_extends hf rows w :
  all_methods only_adds (constructable self) →
  InventoryData.extends (w_inventory w)
    (w_inventory (final (for_each (populate_row self hf) rows w))).
Proof.
  intros Hadd. revert w. induction rows as [| row rows IH]; intros w; [apply extends_refl |].
  rewrite for_each_cons.
  pose proof (populate_row_extends hf row w Hadd) as Hh.
  destruct (populate_row self hf row w) as [[ev w'] [[] | e]];
    unfold final in *; cbn [fst snd] in *; [| exact Hh].
  specialize (IH w').
  destruct (for_each (populate_row self hf) rows w') as [[ev' w''] r];
    unfold final in *; cbn [fst snd] in *.
  eapply extends_trans; eassumption.
Qed.

End Rows.

(** ** Populating: which rows become hosts *)




(** A row whose hostname field is absent or falsy is skipped with one
    warning; the world is left as it was and the loop goes on. *)
Lemma populate_row_skip (self : Env) hf fields w :
  truthy (dict_get fields hf) = false →
  populate_row self hf (RowDict fields) w = ([skip_warning (RowDict fields)], w, Ok tt).
Proof. intros Ht. rewrite populate_row_run. cbn zeta. rewrite Ht. reflexivity. Qed.






(** ** Populating: failures *)

(** C4.  When the rows before [row] have been processed and the [try]
    suite of [row] raises an exception [e] (an instance of
    [Exception]), [_populate] displays and raises the error
    "Failure parsing record: " followed by the text of [e]; nothing of
    the rows after [row] is processed.  A row that is not a mapping is
    such a case, whatever the world. *)
Theorem populate_wraps_and_aborts (self : Env) (pre post : list RawRow) (row : RawRow)
    (w w1 w2 : World) (ev1 ev2 : list Event) (e : exn) :
  _populate self pre w = (ev1, w1, Ok tt) →
  populate_suite self (hostname_field (options self)) row w1 = (ev2, w2, Raise e) →
  is_Exception e = true →
  _populate self (pre ++ row :: post) w
  = (ev1 ++ ev2 ++ [Display Lerror ("Failure parsing record: " +:+ to_native e) []], w2,
     Raise (AnsibleError ("Failure parsing record: " +:+ to_native e))) ∧
  ∀ v w',
    populate_row self (hostname_field (options self)) (RowOther v) w'
    = ([Display Lerror ("Failure parsing record: '" +:+ type_name v
                        +:+ "' object has no attribute 'get'") []], w',
       Raise (AnsibleError ("Failure parsing record: '" +:+ type_name v
                            +:+ "' object has no attribute 'get'"))).
Proof.
  intros Hpre Hsuite Hexc. split; [| intros v w'; rewrite populate_row_run; reflexivity].
  rewrite populate_run in *. rewrite for_each_app.
  destruct (for_each _ pre w) as [[ev w0] r]. injection Hpre as <- <- ->.
  rewrite for_each_cons. unfold populate_row at 1, try_except. rewrite Hsuite, Hexc.
  unfold populate_handler. unfold_eff. cbn [app]. reflexivity.
Qed.

Lemma populate_wraps_and_aborts_witness :
  let self := Sample.env (VStr "SELECT * FROM mydb;") false (Sample.server_ok []) in
  outcome (_populate self Sample.rows_broken Sample.world0)
  = Raise (AnsibleError "Failure parsing record: 'int' object has no attribute 'get'") ∧
  InventoryData.hosts (w_inventory (final (_populate self Sample.rows_broken Sample.world0)))
  = [VStr "h1"].
Proof.
  intros self.
  destruct (populate_wraps_and_aborts self
              [RowDict [("hostname", VStr "h1"); ("env", VStr "PROD")]]
              [RowDict [("hostname", VStr "h3")]] (RowOther (VInt 7))
              Sample.world0 _ _ _ _ (no_attribute (VInt 7) "get")
              eq_refl eq_refl eq_refl) as [Hrun _].
  change (_populate self Sample.rows_broken Sample.world0) with
    (_populate self ([RowDict [("hostname", VStr "h1"); ("env", VStr "PROD")]]
                     ++ RowOther (VInt 7) :: [RowDict [("hostname", VStr "h3")]])
       Sample.world0).
  rewrite Hrun. split; reflexivity.
Defined.

(** An exception that is not an instance of [Exception] is not wrapped:
    it leaves the loop as it is. *)
Lemma populate_row_lets_through (self : Env) hf row w ev w' e :
  populate_suite self hf row w = (ev, w', Raise e) →
  is_Exception e = false →
  populate_row self hf row w = (ev, w', Raise e).
Proof. intros Hs He. unfold populate_row, try_except. rewrite Hs, He. reflexivity. Qed.

(** C9.  When [_populate] raises partway through the row sequence,
    what the earlier rows did stays: the run continues from the world
    they left and is never reset, the calls they made head the trace,
    and every host, group membership and variable binding present after
    them (or present before the run) is still present in the inventory
    when the error propagates, provided the inherited composition
    methods themselves only add to the inventory. *)
Theorem populate_keeps_earlier_rows (self : Env) (pre rest : list RawRow)
    (w w1 : World) (ev1 : list Event) (e : exn) :
  all_methods only_adds (constructable self) →
  _populate self pre w = (ev1, w1, Ok tt) →
  outcome (_populate self (pre ++ rest) w) = Raise e →
  let o := _populate self (pre ++ rest) w in
  outcome (for_each (populate_row self (hostname_field (options self))) rest w1) = Raise e ∧
  final o = final (for_each (populate_row self (hostname_field (options self))) rest w1) ∧
  ev1 `prefix_of` events o ∧
  InventoryData.extends (w_inventory w1) (w_inventory (final o)) ∧
  InventoryData.extends (w_inventory w) (w_inventory (final o)).
Proof.
  intros Hadd Hpre Hraise o. subst o.
  pose proof (rows_extends self (hostname_field (options self)) rest w1 Hadd) as Hext1.
  pose proof (rows_extends self (hostname_field (options self)) pre w Hadd) as Hext0.
  rewrite populate_run in *. rewrite for_each_app in *.
  destruct (for_each _ pre w) as [[ev w0] r]. injection Hpre as <- <- ->.
  unfold final in Hext0; cbn [fst snd] in Hext0.
  destruct (for_each _ rest w0) as [[ev' w''] r'].
  unfold final, events, outcome in *; cbn [fst snd] in *.
  repeat split.
  - exact Hraise.
  - exists ev'. reflexivity.
  - apply Hext1.
  - apply Hext1.
  - apply Hext1.
  - eapply extends_trans; [exact Hext0 | exact Hext1].
  - eapply extends_trans; [exact Hext0 | exact Hext1].
  - eapply extends_trans; [exact Hext0 | exact Hext1].
Qed.

Lemma constructable_strict_only_adds : all_methods only_adds Sample.constructable_strict.
Proof.
  unfold all_methods, only_adds.
  split; [| split]; intros spec host_vars host strict inv; cbn; try apply extends_refl.
  destruct (decide (host = VStr "h2")); cbn;
    [apply set_variable_extends | apply extends_refl].
Qed.

Lemma populate_keeps_earlier_rows_witness :
  let o := _populate Sample.env_strict Sample.rows_three Sample.world0 in
  outcome o = Raise (AnsibleError "Failure parsing record: Could not set role for host h2") ∧
  VStr "h1" ∈ InventoryData.hosts (w_inventory (final o)) ∧
  is_Some (InventoryData.get_variable (w_inventory (final o)) (VStr "h1") "env").
Proof.
  intros o.
  destruct (populate_keeps_earlier_rows Sample.env_strict
              [RowDict [("hostname", VStr "h1"); ("env", VStr "PROD")]]
              [RowDict [("hostname", VStr "h2"); ("env", VStr "QA")];
               RowDict [("hostname", VStr "h3"); ("env", VStr "DEV")]]
              Sample.world0 _ _
              (AnsibleError "Failure parsing record: Could not set role for host h2")
              constructable_strict_only_adds eq_refl eq_refl)
    as (_ & _ & _ & (Hhosts & _ & Hvars) & _).
  split; [reflexivity |]. split.
  - apply Hhosts. vm_compute. left.
  - apply Hvars. vm_compute. eauto.
Defined.

(** ** Per-host processing: order *)

Lemma set_variables_other host fields inv h n :
  (h = host → n ∉ map fst fields) →
  InventoryData.get_variable (set_variables host fields inv) h n
  = InventoryData.get_variable inv h n.
Proof.
  revert inv. induction fields as [| [k v] fields IH]; intros inv Hn; [reflexivity |].
  cbn [set_variables fst snd]. rewrite IH.
  - unfold InventoryData.get_variable. cbn. apply lookup_insert_ne.
    intros [= -> ->]. apply (Hn eq_refl). left.
  - intros ->. specialize (Hn eq_refl). cbn in Hn. rewrite not_elem_of_cons in Hn. tauto.
Qed.

Lemma set_variables_lookup host fields inv k v :
  NoDup (map fst fields) → (k, v) ∈ fields →
  InventoryData.get_variable (set_variables host fields inv) host k = Some v.
Proof.
  revert inv. induction fields as [| [k0 v0] fields IH]; intros inv Hnd Hin.
  - apply elem_of_nil in Hin. contradiction.
  - cbn [map fst] in Hnd. apply NoDup_cons in Hnd as [Hfresh Hnd].
    cbn [set_variables fst snd].
    apply elem_of_cons in Hin as [[= -> ->] | Hin].
    + rewrite set_variables_other by (intros _; exact Hfresh).
      unfold InventoryData.get_variable. cbn. apply lookup_insert_eq.
    + apply IH; assumption.
Qed.

(** C7.  For a row with a hostname, [_add_host] that returns has
    performed exactly this, in this order: the registration into "all",
    one [set_variable] per row field with its key and value, in field
    order, then compose, composed groups and keyed groups.  After the
    variable loop every field of the row reads back as the value of the
    variable of that name on that host, whatever was bound there
    before.  Rows are processed left to right: processing a sequence is
    processing its first part, then the rest from the world so
    obtained.  [_populate] hands every mapping with a hostname to
    [_add_host], with the hostname and the row, right after announcing
    it; and the trace of a [_populate] that returns is its first
    message followed, row after row in the order of the sequence, by
    the announcement and the steps of [_add_host] for a row with a
    hostname and by the warning for a row without. *)
Theorem add_host_performs_in_order (self : Env) (hostname : value)
    (fields : list (string * value)) (w : World) :
  (outcome (_add_host self hostname (RowDict fields) w) = Ok tt →
   events (_add_host self hostname (RowDict fields) w)
   = [AddHost hostname "all";
      Display Lvvvv "Added host {hostname} to group 'all'" [AVal hostname]]
     ++ flat_map
          (fun item =>
             [SetVariable hostname (fst item) (snd item);
              Display Lvvvv "Set variable {var_name}={var_value} for host {hostname}"
                [AStr (fst item); AVal (snd item); AVal hostname]])
          fields
     ++ [SetCompositeVars hostname (RowDict fields) (strict (options self));
         AddHostToComposedGroups hostname (RowDict fields) (strict (options self));
         AddHostToKeyedGroups hostname (RowDict fields) (strict (options self));
         Display Lvvv "Completed processing for host: {hostname}" [AVal hostname]]) ∧
  (NoDup (map fst fields) →
   ∀ k v, (k, v) ∈ fields →
     InventoryData.get_variable
       (w_inventory (final (set_host_variables hostname fields
                              (final (inventory_add_host hostname "all" w)))))
       hostname k = Some v) ∧
  (∀ pre post w0,
     _populate self (pre ++ post) w0 =
     match _populate self pre w0 with
     | (ev, w', Ok _) =>
         match for_each (populate_row self (hostname_field (options self))) post w' with
         | (ev', w'', r) => (ev ++ ev', w'', r)
         end
     | (ev, w', Raise e) => (ev, w', Raise e)
     end) ∧
  (∀ row_fields w0,
     truthy (dict_get row_fields (hostname_field (options self))) = true →
     ∃ tail,
       events (populate_row self (hostname_field (options self)) (RowDict row_fields) w0)
       = Display Lvvv "Processing host: {hostname}"
           [AVal (dict_get row_fields (hostname_field (options self)))]
         :: events (_add_host self (dict_get row_fields (hostname_field (options self)))
                      (RowDict row_fields) w0)
         ++ tail ∧
       (outcome (populate_row self (hostname_field (options self)) (RowDict row_fields) w0)
        = Ok tt → tail = []) ∧
       final (populate_row self (hostname_field (options self)) (RowDict row_fields) w0)
       = final (_add_host self (dict_get row_fields (hostname_field (options self)))
                  (RowDict row_fields) w0)) ∧
  (∀ rows w0,
     outcome (_populate self rows w0) = Ok tt →
     events (_populate self rows w0)
     = Display Lvvv "Using hostname field: {hostname_field}"
         [AStr (hostname_field (options self))]
       :: flat_map (row_script (strict (options self)) (hostname_field (options self))) rows).
Proof.
  split; [| split; [| split; [| split]]].
  - apply add_host_returns_script.
  - intros Hnd k v Hin. rewrite set_host_variables_run. unfold final. cbn [fst snd].
    apply set_variables_lookup; assumption.
  - intros pre post w0. rewrite !populate_run, for_each_app.
    destruct (for_each _ pre w0) as [[ev w'] [[] | e]]; [| reflexivity].
    destruct (for_each _ post w') as [[ev' w''] r]. reflexivity.
  - intros row_fields w0. apply populate_row_runs_add_host.
  - intros rows w0. rewrite populate_run.
    pose proof (rows_script self (hostname_field (options self)) rows w0) as Hscript.
    destruct (for_each _ rows w0) as [[ev w'] r]; unfold outcome, events in *;
      cbn [fst snd] in *.
    intros Hret. rewrite (Hscript Hret). reflexivity.
Qed.

Lemma add_host_performs_in_order_witness :
  let self := Sample.env (VStr "SELECT * FROM mydb;") false (Sample.server_ok []) in
  events (_add_host self (VStr "h1") (RowDict [("hostname", VStr "h1"); ("env", VStr "PROD")])
            Sample.world0)
  = [AddHost (VStr "h1") "all";
     Display Lvvvv "Added host {hostname} to group 'all'" [AVal (VStr "h1")];
     SetVariable (VStr "h1") "hostname" (VStr "h1");
     Display Lvvvv "Set variable {var_name}={var_value} for host {hostname}"
       [AStr "hostname"; AVal (VStr "h1"); AVal (VStr "h1")];
     SetVariable (VStr "h1") "env" (VStr "PROD");
     Display Lvvvv "Set variable {var_name}={var_value} for host {hostname}"
       [AStr "env"; AVal (VStr "PROD"); AVal (VStr "h1")];
     SetCompositeVars (VStr "h1") (RowDict [("hostname", VStr "h1"); ("env", VStr "PROD")]) false;
     AddHostToComposedGroups (VStr "h1")
       (RowDict [("hostname", VStr "h1"); ("env", VStr "PROD")]) false;
     AddHostToKeyedGroups (VStr "h1")
       (RowDict [("hostname", VStr "h1"); ("env", VStr "PROD")]) false;
     Display Lvvv "Completed processing for host: {hostname}" [AVal (VStr "h1")]] ∧
  events (_populate self Sample.rows_h1 Sample.world0)
  = Display Lvvv "Using hostname field: {hostname_field}" [AStr "hostname"]
    :: Display Lvvv "Processing host: {hostname}" [AVal (VStr "h1")]
    :: add_host_script false (VStr "h1") [("hostname", VStr "h1"); ("env", VStr "PROD")]
    ++ [skip_warning (RowDict [("hostname", VStr ""); ("env", VStr "DEV")])] ∧
  InventoryData.get_variable
    (w_inventory
       (final (set_host_variables (VStr "h1") [("hostname", VStr "h1"); ("env", VStr "PROD")]
                 (final (inventory_add_host (VStr "h1") "all" Sample.world0)))))
    (VStr "h1") "env" = Some (VStr "PROD").
Proof.
  intros self.
  assert (NoDup (map fst [("hostname", VStr "h1"); ("env", VStr "PROD")])) as Hnd.
  { simpl. apply (bool_decide_unpack _). vm_compute. exact I. }
  destruct (add_host_performs_in_order self (VStr "h1")
              [("hostname", VStr "h1"); ("env", VStr "PROD")] Sample.world0)
    as (Hfirst & Hvars & _ & _ & Hrows).
  split; [exact (Hfirst eq_refl) |].
  split; [rewrite (Hrows Sample.rows_h1 Sample.world0 eq_refl); reflexivity |].
  apply (Hvars Hnd). apply list_elem_of_In. right. left. reflexivity.
Defined.

(** ** Loading: cache or database *)

Section Loading.
Context (self : Env).

(** [_get_raw_hosts] touches neither the cache nor the inventory and
    only talks to the display and to the database client, however it
    ends. *)
Lemma get_raw_hosts_frame w :
  let o := _get_raw_hosts self w in
  w_cache (final o) = w_cache w ∧ w_inventory (final o) = w_inventory w ∧
  forallb is_display_or_db (events o) = true.
Proof.
  intros o; subst o.
  unfold _get_raw_hosts, with_local, config_error, events, final.
  destruct (db_query (options self)) as [| b | n | query];
    [cbn; repeat split | cbn; repeat split | cbn; repeat split |].
  destruct (negb (truthy _)); [cbn; repeat split |].
  destruct (negb (startswith _ _)); [cbn; repeat split |].
  fetch_cases self query ltac:(cbn; repeat split).
Qed.

Lemma populate_frame rows w :
  let o := _populate self rows w in
  w_cache (final o) = w_cache w ∧ w_open (final o) = w_open w ∧
  forallb is_display_or_inventory (events o) = true.
Proof.
  intros o; subst o. rewrite populate_run.
  pose proof (rows_frame self (hostname_field (options self)) rows w) as (F1 & F2 & F3).
  destruct (for_each _ rows w) as [[ev w'] r]; unfold events, final in *; cbn [fst snd] in *.
  cbn [forallb]. rewrite F3. repeat split; assumption.
Qed.

(** [parse], case by case. *)
Lemma parse_run path flag w :
  let cache_key := get_cache_key self path in
  let utilize_cache := cache (options self) && flag in
  let found := w_cache w !! cache_key in
  let prelude := parse_prelude path cache_key utilize_cache found in
  parse self path flag w =
  match cached_rows utilize_cache found with
  | Some rows =>
      match _populate self rows w with
      | (ev, w', r) => (prelude ++ parse_store cache_key false rows ++ ev, w', r)
      end
  | None =>
      match _get_raw_hosts self w with
      | (ev, w1, Raise e) =>
          (prelude ++ Display Lvv "No cached data found, querying database" [] :: ev,
           w1, Raise e)
      | (ev, w1, Ok rows) =>
          match _populate self rows
                  (if utilize_cache then set_cache (<[cache_key := RowSeq rows]>) w1 else w1)
          with
          | (ev', w2, r) =>
              (prelude ++ Display Lvv "No cached data found, querying database" [] :: ev
               ++ parse_store cache_key utilize_cache rows ++ ev', w2, r)
          end
      end
  end.
Proof.
  intros cache_key utilize_cache found prelude.
  subst prelude found utilize_cache.
  unfold parse, parse_prelude, parse_store, cached_rows, get_option_cache.
  fold cache_key. generalize cache_key. clear cache_key. intros cache_key.
  unfold cache_getitem, cache_setitem. unfold_eff.
  destruct (cache (options self) && flag).
  - destruct (w_cache w !! cache_key) as [[| rows] |]; cbn [app].
    + destruct (_get_raw_hosts self w) as [[ev w1] [rows | e]]; [| reflexivity].
      destruct (_populate self rows _) as [[ev' w2] r].
      cbn [app]; rewrite <- ?app_assoc; cbn [app]; reflexivity.
    + destruct (_populate self rows w) as [[ev' w2] r]. reflexivity.
    + destruct (_get_raw_hosts self w) as [[ev w1] [rows | e]]; [| reflexivity].
      destruct (_populate self rows _) as [[ev' w2] r].
      cbn [app]; rewrite <- ?app_assoc; cbn [app]; reflexivity.
  - cbn [app].
    destruct (_get_raw_hosts self w) as [[ev w1] [rows | e]]; [| reflexivity].
    destruct (_populate self rows _) as [[ev' w2] r].
    cbn [app]; rewrite <- ?app_assoc; cbn [app]; reflexivity.
Qed.

End Loading.

Lemma forallb_weaken {A} (P Q : A → bool) (l : list A) :
  (∀ x, P x = true → Q x = true) → forallb P l = true → forallb Q l = true.
Proof.
  intros HPQ. induction l as [| x l IH]; [reflexivity |].
  cbn. intros [Hx Hl]%andb_prop. rewrite (HPQ x Hx), (IH Hl). reflexivity.
Qed.

Lemma existsb_none {A} (P Q : A → bool) (l : list A) :
  (∀ x, P x = true → Q x = false) → forallb P l = true → existsb Q l = false.
Proof.
  intros HPQ. induction l as [| x l IH]; [reflexivity |].
  cbn. intros [Hx Hl]%andb_prop. rewrite (HPQ x Hx), (IH Hl). reflexivity.
Qed.

Lemma display_or_inventory_no_db e : is_display_or_inventory e = true → negb (is_db_event e) = true.
Proof. destruct e; cbn; congruence. Qed.

Lemma display_or_db_no_inventory e : is_display_or_db e = true → negb (is_inventory_event e) = true.
Proof. destruct e; cbn; congruence. Qed.

Lemma display_or_inventory_no_cache e : is_display_or_inventory e = true → is_cache_event e = false.
Proof. destruct e; cbn; congruence. Qed.

Lemma display_or_db_no_cache e : is_display_or_db e = true → is_cache_event e = false.
Proof. destruct e; cbn; congruence. Qed.

Lemma parse_prelude_quiet path key utilize found :
  no_db_event (parse_prelude path key utilize found) ∧
  no_inventory_event (parse_prelude path key utilize found).
Proof. unfold no_db_event, no_inventory_event. destruct utilize, found; split; reflexivity. Qed.

Lemma parse_store_quiet key utilize rows :
  no_db_event (parse_store key utilize rows) ∧ no_inventory_event (parse_store key utilize rows).
Proof. unfold no_db_event, no_inventory_event. destruct utilize; split; reflexivity. Qed.

Lemma count_events_app p evs evs' :
  count_events p (evs ++ evs') = count_events p evs + count_events p evs'.
Proof. unfold count_events. rewrite List.filter_app, length_app. reflexivity. Qed.

Lemma no_db_event_count evs : no_db_event evs → count_events is_execute evs = 0.
Proof.
  unfold no_db_event, count_events. induction evs as [| e evs IH]; [reflexivity |].
  cbn. intros [He Hl]%andb_prop. destruct e; cbn in *; try discriminate; auto.
Qed.

Lemma no_db_event_in evs q : no_db_event evs → ¬ In (DbExecute q) evs.
Proof.
  unfold no_db_event. induction evs as [| e evs IH]; [intros _ [] |].
  cbn. intros [He Hl]%andb_prop [-> | Hin]; [discriminate He | exact (IH Hl Hin)].
Qed.

Lemma no_db_event_app evs evs' : no_db_event evs → no_db_event evs' → no_db_event (evs ++ evs').
Proof. unfold no_db_event. intros H1 H2. rewrite forallb_app, H1, H2. reflexivity. Qed.

Lemma populate_no_db_event (self : Env) rows w : no_db_event (events (_populate self rows w)).
Proof.
  pose proof (populate_frame self rows w) as (_ & _ & Hkind).
  exact (forallb_weaken _ _ _ display_or_inventory_no_db Hkind).
Qed.

(** [parse] on a cache hit and on a fetch, part by part. *)
Lemma parse_hit_or_fetch (self : Env) (path : string) (flag : bool) (w : World) :
  let cache_key := get_cache_key self path in
  let utilize_cache := cache (options self) && flag in
  let o := parse self path flag w in
  match cached_rows utilize_cache (w_cache w !! cache_key) with
  | Some rows =>
      no_db_event (events o) ∧
      final o = final (_populate self rows w) ∧
      outcome o = outcome (_populate self rows w) ∧
      ∃ pre, no_inventory_event pre ∧ events o = pre ++ events (_populate self rows w)
  | None =>
      ∃ pre, no_db_event pre ∧ no_inventory_event pre ∧
        match _get_raw_hosts self w with
        | (ev, w1, Raise e) =>
            events o = pre ++ ev ∧ no_inventory_event ev ∧ final o = w1 ∧ outcome o = Raise e
        | (ev, w1, Ok rows) =>
            let w2 :=
              if utilize_cache then set_cache (<[cache_key := RowSeq rows]>) w1 else w1 in
            events o
            = pre ++ ev
              ++ (if utilize_cache then
                    [CachePut cache_key rows;
                     Display Lvv "Cached data for key: {cache_key}" [AStr cache_key]]
                  else [])
              ++ [Display Lvv "Populating inventory with {len(raw_hosts)} hosts"
                    [AVal (VInt (Z.of_nat (length rows)))]]
              ++ events (_populate self rows w2) ∧
            no_inventory_event ev ∧
            final o = final (_populate self rows w2) ∧
            outcome o = outcome (_populate self rows w2) ∧
            (if utilize_cache
             then w_cache (final o) !! cache_key = Some (RowSeq rows)
             else w_cache (final o) = w_cache w)
        end
  end.
Proof.
  intros cache_key utilize_cache o. subst o. rewrite parse_run.
  fold cache_key. fold utilize_cache.
  destruct (parse_prelude_quiet path cache_key utilize_cache (w_cache w !! cache_key))
    as [Hpre_db Hpre_inv].
  destruct (cached_rows utilize_cache (w_cache w !! cache_key)) as [rows |].
  - pose proof (populate_frame self rows w) as (_ & _ & Hkind).
    destruct (_populate self rows w) as [[ev w'] r]; unfold events, final, outcome in *;
      cbn [fst snd] in *.
    repeat split.
    + unfold no_db_event in *. rewrite !forallb_app, Hpre_db.
      rewrite (forallb_weaken _ _ ev display_or_inventory_no_db Hkind). reflexivity.
    + eexists. split; [| apply app_assoc].
      unfold no_inventory_event in *. rewrite forallb_app, Hpre_inv. reflexivity.
  - exists (parse_prelude path cache_key utilize_cache (w_cache w !! cache_key)
            ++ [Display Lvv "No cached data found, querying database" []]).
    split; [| split].
    + unfold no_db_event in *. rewrite forallb_app, Hpre_db. reflexivity.
    + unfold no_inventory_event in *. rewrite forallb_app, Hpre_inv. reflexivity.
    + pose proof (get_raw_hosts_frame self w) as (Fc & _ & Fkind).
      destruct (_get_raw_hosts self w) as [[ev w1] [rows | e]];
        unfold events, final, outcome in *; cbn [fst snd] in *.
      * cbn zeta.
        pose proof (populate_frame self rows
                      (if utilize_cache then set_cache (<[cache_key := RowSeq rows]>) w1
                       else w1)) as (Pc & _ & _).
        destruct (_populate self rows _) as [[ev' w2] r];
          unfold events, final, outcome in *; cbn [fst snd] in *.
        repeat split.
        -- unfold parse_store. rewrite <- !app_assoc. reflexivity.
        -- exact (forallb_weaken _ _ ev display_or_db_no_inventory Fkind).
        -- rewrite Pc. destruct utilize_cache; cbn.
           ++ apply lookup_insert_eq.
           ++ exact Fc.
      * repeat split.
        -- rewrite <- app_assoc. reflexivity.
        -- exact (forallb_weaken _ _ ev display_or_db_no_inventory Fkind).
Qed.

(** The events of a [parse] that has to fetch: those of the fetch,
    between events that concern neither the database nor, before it,
    the inventory. *)
Lemma parse_fetch_events (self : Env) (path : string) (flag : bool) (w : World) :
  cached_rows (cache (options self) && flag) (w_cache w !! get_cache_key self path) = None →
  ∃ pre post, no_db_event pre ∧ no_inventory_event pre ∧ no_db_event post ∧
    events (parse self path flag w) = pre ++ events (_get_raw_hosts self w) ++ post.
Proof.
  intros Hnone. rewrite parse_run. cbn zeta. rewrite Hnone.
  set (key := get_cache_key self path). set (u := cache (options self) && flag).
  destruct (parse_prelude_quiet path key u (w_cache w !! key)) as [Hpre_db Hpre_inv].
  exists (parse_prelude path key u (w_cache w !! key)
          ++ [Display Lvv "No cached data found, querying database" []]).
  destruct (_get_raw_hosts self w) as [[ev w1] [rows | e]]; unfold events; cbn [fst snd].
  - pose proof (populate_no_db_event self rows
                  (if u then set_cache (<[key := RowSeq rows]>) w1 else w1)) as Hpop.
    destruct (parse_store_quiet key u rows) as [Hst _].
    destruct (_populate self rows _) as [[ev' w2] r]; unfold events in *; cbn [fst snd] in *.
    exists (parse_store key u rows ++ ev'). repeat split.
    + apply no_db_event_app; [assumption | reflexivity].
    + unfold no_inventory_event in *. rewrite forallb_app, Hpre_inv. reflexivity.
    + apply no_db_event_app; assumption.
    + rewrite <- !app_assoc. reflexivity.
  - exists []. repeat split.
    + apply no_db_event_app; [assumption | reflexivity].
    + unfold no_inventory_event in *. rewrite forallb_app, Hpre_inv. reflexivity.
    + rewrite app_nil_r, <- app_assoc. reflexivity.
Qed.

(** C3, as the code has it.  With the cache utilized and a row
    sequence stored under the key, [parse] populates from these rows
    and makes no call to the database client.  Otherwise (cache not
    utilized, or nothing under the key) it runs [_get_raw_hosts] in the
    world it was called in, before anything reaches the inventory.  The
    database is then contacted exactly when the query option passes
    validation: a refused query makes [parse] raise with no call to the
    database client at all, and a query that passes is executed, once
    and as it stands, as soon as the connection and the cursor are
    open.  When the fetch raises, so does [parse]; when it returns rows
    and the cache is utilized, the rows are put under the key before
    the first population event, the population runs in the world that
    already holds them, and they are still there at the end. *)
Theorem parse_cache_or_database (self : Env) (path : string) (flag : bool) (w : World) :
  let cache_key := get_cache_key self path in
  let utilize_cache := cache (options self) && flag in
  let o := parse self path flag w in
  match cached_rows utilize_cache (w_cache w !! cache_key) with
  | Some rows =>
      no_db_event (events o) ∧
      final o = final (_populate self rows w) ∧
      outcome o = outcome (_populate self rows w) ∧
      ∃ pre, no_inventory_event pre ∧ events o = pre ++ events (_populate self rows w)
  | None =>
      (refused_query (db_query (options self)) ∧ no_db_event (events o) ∨
       ¬ refused_query (db_query (options self)) ∧
       ∃ query, db_query (options self) = VStr query ∧
         In (DbConnect (connect_params self)) (events o) ∧
         match srv_connect (server self) (connect_params self), srv_cursor (server self) with
         | None, None =>
             In (DbExecute query) (events o) ∧ count_events is_execute (events o) = 1
         | _, _ => count_events is_execute (events o) = 0
         end) ∧
      ∃ pre, no_db_event pre ∧ no_inventory_event pre ∧
        match _get_raw_hosts self w with
        | (ev, w1, Raise e) =>
            events o = pre ++ ev ∧ no_inventory_event ev ∧ final o = w1 ∧ outcome o = Raise e
        | (ev, w1, Ok rows) =>
            let w2 :=
              if utilize_cache then set_cache (<[cache_key := RowSeq rows]>) w1 else w1 in
            events o
            = pre ++ ev
              ++ (if utilize_cache then
                    [CachePut cache_key rows;
                     Display Lvv "Cached data for key: {cache_key}" [AStr cache_key]]
                  else [])
              ++ [Display Lvv "Populating inventory with {len(raw_hosts)} hosts"
                    [AVal (VInt (Z.of_nat (length rows)))]]
              ++ events (_populate self rows w2) ∧
            no_inventory_event ev ∧
            final o = final (_populate self rows w2) ∧
            outcome o = outcome (_populate self rows w2) ∧
            (if utilize_cache
             then w_cache (final o) !! cache_key = Some (RowSeq rows)
             else w_cache (final o) = w_cache w)
        end
  end.
Proof.
  intros cache_key utilize_cache o.
  pose proof (parse_hit_or_fetch self path flag w) as Hshape. cbn zeta in Hshape.
  fold cache_key utilize_cache o in Hshape.
  pose proof (parse_fetch_events self path flag w) as Hfetch.
  fold cache_key utilize_cache o in Hfetch.
  destruct (cached_rows utilize_cache (w_cache w !! cache_key)) as [rows |];
    [exact Hshape | split; [| exact Hshape]].
  destruct (Hfetch eq_refl) as (pre & post & Hpre & _ & Hpost & Hev). rewrite Hev.
  destruct (refused_query_decide (db_query (options self))) as [Href | Hok].
  - left. split; [assumption |].
    destruct (refused_query_raises self w Href) as (error & _ & Hrun). rewrite Hrun.
    apply no_db_event_app; [assumption |]. apply no_db_event_app; [reflexivity | assumption].
  - right. split; [assumption |].
    destruct (get_raw_hosts_calls self w Hok) as (query & Hq & [evs Hevs] & Hexec).
    exists query. split; [assumption |]. split.
    + apply in_or_app. right. apply in_or_app. left. rewrite Hevs. left. reflexivity.
    + rewrite !count_events_app, (no_db_event_count pre Hpre), (no_db_event_count post Hpost).
      destruct (srv_connect (server self) (connect_params self));
        [rewrite Hexec; reflexivity |].
      destruct (srv_cursor (server self)); [rewrite Hexec; reflexivity |].
      destruct Hexec as [Hin Hone]. rewrite Hone. split; [| reflexivity].
      apply in_or_app. right. apply in_or_app. left. exact Hin.
Qed.

(** A load that misses the cache with a query that is not a SELECT:
    the configuration error is raised and no call reaches the database
    client. *)
Lemma parse_miss_refused_counterexample :
  let self := Sample.env (VStr "DROP TABLE x") true (Sample.server_ok Sample.rows_h1) in
  let o := parse self "mysql.yml" true Sample.world0 in
  cache (options self) && true = true ∧
  w_cache Sample.world0 !! get_cache_key self "mysql.yml" = None ∧
  outcome o = Raise (AnsibleError "Database query must be a valid SELECT statement") ∧
  count_events is_db_event (events o) = 0 ∧
  events o
  = [Display Lvv "Parsing inventory file: {path}" [AStr "mysql.yml"];
     Display Lvv "Utilize cache: {utilize_cache}" [AVal (VBool true)];
     CacheGet "mysql_mysql.yml";
     Display Lvv "Cache miss for key: {cache_key}" [AStr "mysql_mysql.yml"];
     Display Lvv "No cached data found, querying database" [];
     Display Lerror "Database query must be a valid SELECT statement" []].
Proof. vm_compute. repeat split. Qed.

Lemma get_raw_hosts_no_cache_event (self : Env) w :
  existsb is_cache_event (events (_get_raw_hosts self w)) = false.
Proof.
  pose proof (get_raw_hosts_frame self w) as (_ & _ & Hkind).
  exact (existsb_none _ _ _ display_or_db_no_cache Hkind).
Qed.

Lemma populate_no_cache_event (self : Env) rows w :
  existsb is_cache_event (events (_populate self rows w)) = false.
Proof.
  pose proof (populate_frame self rows w) as (_ & _ & Hkind).
  exact (existsb_none _ _ _ display_or_inventory_no_cache Hkind).
Qed.

Lemma existsb_cache_get_le evs :
  existsb is_cache_event evs = false → existsb is_cache_get evs = false.
Proof.
  induction evs as [| e evs IH]; [reflexivity |].
  cbn. intros [He Hl]%orb_false_elim. rewrite (IH Hl).
  destruct e; cbn in *; congruence.
Qed.

Lemma parse_cache_decision (self : Env) (path : string) (flag : bool)
    (w : World) :
  let utilize_cache := cache (options self) && flag in
  let o := parse self path flag w in
  In (Display Lvv "Utilize cache: {utilize_cache}" [AVal (VBool utilize_cache)]) (events o) ∧
  existsb is_cache_get (events o) = utilize_cache ∧
  existsb is_cache_event (events o) = utilize_cache ∧
  (if utilize_cache
   then In (CacheGet (get_cache_key self path)) (events o)
   else w_cache (final o) = w_cache w).
Proof.
  intros utilize_cache o. subst o. rewrite parse_run. fold utilize_cache.
  set (key := get_cache_key self path). set (found := w_cache w !! key).
  assert (Hshape :
    ∀ (tail : list Event) (w' : World) (r : result unit),
      existsb is_cache_event tail = (if utilize_cache then existsb is_cache_event tail else false) →
      (utilize_cache = false → w_cache w' = w_cache w) →
      let o := (parse_prelude path key utilize_cache found ++ tail, w', r) in
      In (Display Lvv "Utilize cache: {utilize_cache}" [AVal (VBool utilize_cache)]) (events o) ∧
      existsb is_cache_get (events o) = utilize_cache ∧
      existsb is_cache_event (events o) = utilize_cache ∧
      (if utilize_cache then In (CacheGet key) (events o) else w_cache (final o) = w_cache w)).
  { intros tail w' r Htail Hcache. unfold events, final, parse_prelude. cbn [fst snd].
    destruct utilize_cache.
    - repeat split; cbn; auto.
    - rewrite !existsb_app, Htail, (existsb_cache_get_le tail Htail). repeat split; cbn; auto. }
  destruct (cached_rows utilize_cache found) as [rows |] eqn:Hcached.
  - assert (utilize_cache = true) as Hu.
    { unfold cached_rows in Hcached. destruct utilize_cache; [reflexivity | discriminate]. }
    destruct (_populate self rows w) as [[ev w'] r].
    apply Hshape; rewrite Hu; [reflexivity | discriminate].
  - pose proof (get_raw_hosts_frame self w) as (Fc & _ & _).
    pose proof (get_raw_hosts_no_cache_event self w) as Fnone.
    destruct (_get_raw_hosts self w) as [[ev w1] [rows | e]];
      unfold events, final in Fc, Fnone; cbn [fst snd] in Fc, Fnone.
    + pose proof (populate_frame self rows
                    (if utilize_cache then set_cache (<[key := RowSeq rows]>) w1 else w1))
        as (Pc & _ & _).
      pose proof (populate_no_cache_event self rows
                    (if utilize_cache then set_cache (<[key := RowSeq rows]>) w1 else w1))
        as Pnone.
      destruct (_populate self rows _) as [[ev' w2] r];
        unfold events, final in Pc, Pnone; cbn [fst snd] in Pc, Pnone.
      apply Hshape.
      * destruct utilize_cache; [reflexivity |].
        cbn [existsb is_cache_event orb]. rewrite !existsb_app, Fnone, Pnone. reflexivity.
      * intros ->. rewrite Pc. exact Fc.
    + apply Hshape.
      * destruct utilize_cache; [reflexivity |]. cbn [existsb is_cache_event orb]. exact Fnone.
      * intros _. exact Fc.
Qed.

Lemma parse_prelude_no_put path key utilize found :
  existsb is_cache_put (parse_prelude path key utilize found) = false.
Proof. destruct utilize, found; reflexivity. Qed.

Lemma no_cache_event_no_put evs :
  existsb is_cache_event evs = false → existsb is_cache_put evs = false.
Proof.
  induction evs as [| e evs IH]; [reflexivity |].
  cbn. intros [He Hl]%orb_false_elim. rewrite (IH Hl).
  destruct e; cbn in *; congruence.
Qed.

Lemma existsb_false_count p evs : existsb p evs = false → count_events p evs = 0.
Proof.
  unfold count_events. induction evs as [| e evs IH]; [reflexivity |].
  cbn. intros [He Hl]%orb_false_elim. rewrite He. auto.
Qed.

(** When [parse] stores rows in the cache: after a fetch that returned
    them, with the cache utilized, and never otherwise. *)
Lemma parse_cache_population (self : Env) (path : string) (flag : bool) (w : World) :
  let cache_key := get_cache_key self path in
  let utilize_cache := cache (options self) && flag in
  let o := parse self path flag w in
  match cached_rows utilize_cache (w_cache w !! cache_key),
        outcome (_get_raw_hosts self w) with
  | None, Ok rows =>
      if utilize_cache
      then In (CachePut cache_key rows) (events o) ∧
           count_events is_cache_put (events o) = 1 ∧
           w_cache (final o) = <[cache_key := RowSeq rows]> (w_cache w)
      else existsb is_cache_put (events o) = false ∧ w_cache (final o) = w_cache w
  | _, _ => existsb is_cache_put (events o) = false ∧ w_cache (final o) = w_cache w
  end.
Proof.
  intros cache_key utilize_cache o. subst o. rewrite parse_run. cbn zeta.
  fold cache_key utilize_cache.
  pose proof (parse_prelude_no_put path cache_key utilize_cache (w_cache w !! cache_key))
    as Hprelude.
  pose proof (get_raw_hosts_world self w) as Hw.
  pose proof (no_cache_event_no_put _ (get_raw_hosts_no_cache_event self w)) as Hfetch.
  destruct (cached_rows utilize_cache (w_cache w !! cache_key)) as [rows |].
  - pose proof (populate_frame self rows w) as (Pc & _ & _).
    pose proof (no_cache_event_no_put _ (populate_no_cache_event self rows w)) as Hpop.
    destruct (_populate self rows w) as [[ev w'] r];
      unfold events, final in *; cbn [fst snd] in *.
    assert (existsb is_cache_put (parse_prelude path cache_key utilize_cache
                                    (w_cache w !! cache_key)
                                  ++ parse_store cache_key false rows ++ ev) = false) as Hnone.
    { rewrite !existsb_app, Hprelude, Hpop. reflexivity. }
    destruct (outcome (_get_raw_hosts self w)); split; assumption.
  - destruct (_get_raw_hosts self w) as [[ev w1] [rows | e]];
      unfold events, final, outcome in *; cbn [fst snd] in *; subst w1.
    + pose proof (populate_frame self rows
                    (if utilize_cache then set_cache (<[cache_key := RowSeq rows]>) w else w))
        as (Pc & _ & _).
      pose proof (no_cache_event_no_put _
                    (populate_no_cache_event self rows
                       (if utilize_cache then set_cache (<[cache_key := RowSeq rows]>) w
                        else w))) as Hpop.
      destruct (_populate self rows _) as [[ev' w2] r];
        unfold events, final in *; cbn [fst snd] in *.
      rewrite Pc. destruct utilize_cache; cbn [parse_store app].
      * repeat split.
        -- apply in_or_app. right. right. apply in_or_app. right. left. reflexivity.
        -- rewrite count_events_app, (existsb_false_count _ _ Hprelude).
           change (Display Lvv "No cached data found, querying database" [] :: ?l)
             with ([Display Lvv "No cached data found, querying database" []] ++ l).
           rewrite !count_events_app, (existsb_false_count _ _ Hfetch).
           change (CachePut cache_key rows :: ?l) with ([CachePut cache_key rows] ++ l).
           rewrite count_events_app.
           change (Display Lvv "Cached data for key: {cache_key}" [AStr cache_key] :: ?l)
             with ([Display Lvv "Cached data for key: {cache_key}" [AStr cache_key]] ++ l).
           rewrite count_events_app.
           change (Display Lvv "Populating inventory with {len(raw_hosts)} hosts"
                     [AVal (VInt (Z.of_nat (length rows)))] :: ev')
             with ([Display Lvv "Populating inventory with {len(raw_hosts)} hosts"
                      [AVal (VInt (Z.of_nat (length rows)))]] ++ ev').
           rewrite count_events_app, (existsb_false_count _ _ Hpop). reflexivity.
      * split; [| reflexivity].
        rewrite existsb_app, Hprelude. cbn [existsb is_cache_put orb].
        rewrite existsb_app, Hfetch. cbn [existsb is_cache_put orb]. exact Hpop.
    + split; [| reflexivity].
      rewrite existsb_app, Hprelude. cbn [existsb is_cache_put orb]. exact Hfetch.
Qed.

(** C6.  The decision [parse] displays and acts upon is the
    conjunction of the [cache] option and the flag of the caller.  The
    cache store is read, and touched at all, exactly when both are
    true.  It is populated exactly when both are true and rows were
    fetched: after a fetch that returned rows the rows are put under
    the key, once, and are what the cache holds there at the end when
    the conjunction is true, and nothing is put and the cache is left
    as it was when it is false; without fetched rows (cache hit, failed
    fetch) nothing is put either.  In particular a caller that passes a
    false flag keeps the cache out of the picture whatever the option
    says. *)
Theorem parse_utilize_cache_is_conjunction (self : Env) (path : string) (flag : bool)
    (w : World) :
  let cache_key := get_cache_key self path in
  let utilize_cache := cache (options self) && flag in
  let o := parse self path flag w in
  (In (Display Lvv "Utilize cache: {utilize_cache}" [AVal (VBool utilize_cache)]) (events o) ∧
   existsb is_cache_get (events o) = utilize_cache ∧
   existsb is_cache_event (events o) = utilize_cache ∧
   (if utilize_cache
    then In (CacheGet cache_key) (events o)
    else w_cache (final o) = w_cache w)) ∧
  match cached_rows utilize_cache (w_cache w !! cache_key),
        outcome (_get_raw_hosts self w) with
  | None, Ok rows =>
      if utilize_cache
      then In (CachePut cache_key rows) (events o) ∧
           count_events is_cache_put (events o) = 1 ∧
           w_cache (final o) = <[cache_key := RowSeq rows]> (w_cache w)
      else existsb is_cache_put (events o) = false ∧ w_cache (final o) = w_cache w
  | _, _ => existsb is_cache_put (events o) = false ∧ w_cache (final o) = w_cache w
  end ∧
  existsb is_cache_event (events (parse self path false w)) = false ∧
  w_cache (final (parse self path false w)) = w_cache w.
Proof.
  intros cache_key utilize_cache o.
  split; [apply parse_cache_decision |]. split; [apply parse_cache_population |].
  pose proof (parse_cache_decision self path false w) as H. cbn zeta in H.
  rewrite andb_false_r in H. destruct H as (_ & _ & H3 & H4). split; assumption.
Qed.

(** ** Loading: the cache hit bypasses validation *)

Lemma populate_row_raise_shape (self : Env) hf row w e :
  outcome (populate_row self hf row w) = Raise e →
  (∃ e0, e = AnsibleError ("Failure parsing record: " +:+ to_native e0)) ∨
  is_Exception e = false.
Proof.
  rewrite populate_row_run. destruct row as [fields | v].
  - cbn zeta. destruct (truthy _); [| discriminate].
    destruct (_add_host self _ _ w) as [[ev w'] [u | e1]]; [discriminate |].
    destruct (is_Exception e1) eqn:He1; unfold outcome; cbn [snd].
    + intros [= <-]. left. eexists. reflexivity.
    + intros [= <-]. right. assumption.
  - unfold outcome; cbn [snd]. intros [= <-]. left. eexists. reflexivity.
Qed.

Lemma populate_raise_shape (self : Env) rows w e :
  outcome (_populate self rows w) = Raise e →
  (∃ e0, e = AnsibleError ("Failure parsing record: " +:+ to_native e0)) ∨
  is_Exception e = false.
Proof.
  rewrite populate_run.
  set (hf := hostname_field (options self)).
  assert (outcome (for_each (populate_row self hf) rows w) = Raise e →
          (∃ e0, e = AnsibleError ("Failure parsing record: " +:+ to_native e0)) ∨
          is_Exception e = false) as Hloop.
  { revert w. induction rows as [| row rows IH]; intros w; [discriminate |].
    rewrite for_each_cons.
    pose proof (populate_row_raise_shape self hf row w e) as Hrow.
    destruct (populate_row self hf row w) as [[ev w'] [[] | e1]]; [| exact Hrow].
    specialize (IH w').
    destruct (for_each (populate_row self hf) rows w') as [[ev' w''] r]. exact IH. }
  destruct (for_each (populate_row self hf) rows w) as [[ev w'] r]. exact Hloop.
Qed.

(** C10.  The query is validated on the fetch path only.  With a query
    option the fetch would refuse, the cache utilized and a row
    sequence stored under the key, [parse] ends as [_populate] does on
    the cached rows, in the same world and with the same outcome (so it
    returns whenever the population does); it makes no call to the
    database client and does not raise the configuration error, which
    [_get_raw_hosts] raises with this very configuration. *)
Theorem parse_cache_hit_skips_validation (self : Env) (path : string) (flag : bool)
    (w : World) (rows : list RawRow) :
  refused_query (db_query (options self)) →
  cache (options self) && flag = true →
  w_cache w !! get_cache_key self path = Some (RowSeq rows) →
  let o := parse self path flag w in
  final o = final (_populate self rows w) ∧
  outcome o = outcome (_populate self rows w) ∧
  no_db_event (events o) ∧
  outcome o ≠ Raise (AnsibleError "Query must be a non-empty string") ∧
  outcome o ≠ Raise (AnsibleError "Database query must be a valid SELECT statement") ∧
  ∃ error,
    (error = "Query must be a non-empty string" ∨
     error = "Database query must be a valid SELECT statement") ∧
    outcome (_get_raw_hosts self w) = Raise (AnsibleError error).
Proof.
  intros Href Hu Hfound o. subst o. rewrite parse_run, Hu, Hfound. cbn [cached_rows].
  pose proof (populate_frame self rows w) as (_ & _ & Hkind).
  pose proof (populate_raise_shape self rows w) as Hshape.
  destruct (_populate self rows w) as [[ev w'] r]; unfold events, final, outcome in *;
    cbn [fst snd] in *.
  repeat split.
  - unfold no_db_event. cbn [parse_prelude parse_store app forallb is_db_event negb andb].
    exact (forallb_weaken _ _ ev display_or_inventory_no_db Hkind).
  - intros ->. destruct (Hshape _ eq_refl) as [[e0 He0] | He]; discriminate.
  - intros ->. destruct (Hshape _ eq_refl) as [[e0 He0] | He]; discriminate.
  - destruct (refused_query_raises self w Href) as (error & Herr & Hrun).
    exists error. rewrite Hrun. split; [assumption | reflexivity].
Qed.

Lemma parse_cache_hit_skips_validation_witness :
  let self := Sample.env (VStr "DROP TABLE x") true (Sample.server_ok []) in
  let o := parse self "mysql.yml" true Sample.world_cached in
  outcome o = Ok tt ∧
  InventoryData.hosts (w_inventory (final o)) = [VStr "h1"] ∧
  no_db_event (events o).
Proof.
  intros self o.
  assert (refused_query (db_query (options self))) as Href.
  { apply (refused_query_intro _ "" "DROP TABLE x" ""); reflexivity. }
  destruct (parse_cache_hit_skips_validation self "mysql.yml" true Sample.world_cached
              Sample.rows_h1 Href eq_refl eq_refl) as (Hfinal & Hout & Hdb & _).
  subst o. rewrite Hfinal, Hout. split; [reflexivity |]. split; [reflexivity | exact Hdb].
Defined.

(** ** Scenarios *)

(** A query for two rows, the second without a hostname: the inventory
    gets host [h1] in group "all" with its fields as variables, the
    second row is skipped with a warning. *)
Example scenario_one_host_one_skip :
  let self := Sample.env (VStr "SELECT * FROM t") false (Sample.server_ok Sample.rows_h1) in
  let o := parse self "mysql.yml" true Sample.world0 in
  outcome o = Ok tt ∧
  InventoryData.hosts (w_inventory (final o)) = [VStr "h1"] ∧
  InventoryData.members (w_inventory (final o)) "all" = [VStr "h1"] ∧
  InventoryData.get_variable (w_inventory (final o)) (VStr "h1") "env" = Some (VStr "PROD") ∧
  List.filter is_warning (events o)
  = [skip_warning (RowDict [("hostname", VStr ""); ("env", VStr "DEV")])] ∧
  w_open (final o) = 0.
Proof. vm_compute. repeat split. Qed.

(** A statement that is not a SELECT is refused with no side effect. *)
Example scenario_drop_table :
  let self := Sample.env (VStr "DROP TABLE x") false (Sample.server_ok Sample.rows_h1) in
  parse self "mysql.yml" true Sample.world0
  = ([Display Lvv "Parsing inventory file: {path}" [AStr "mysql.yml"];
      Display Lvv "Utilize cache: {utilize_cache}" [AVal (VBool false)];
      Display Lvv "No cached data found, querying database" [];
      Display Lerror "Database query must be a valid SELECT statement" []],
     Sample.world0,
     Raise (AnsibleError "Database query must be a valid SELECT statement")).
Proof. reflexivity. Qed.

(** A failing statement is reported as a database error, after the
    connection has been closed. *)
Example scenario_bad_sql :
  let self := Sample.env (VStr "select nothing") false Sample.server_bad_sql in
  let o := _get_raw_hosts self Sample.world0 in
  outcome o = Raise (AnsibleError "Database query failed: syntax error") ∧
  List.filter is_db_event (events o)
  = [DbConnect (connect_params self); DbCursor; DbExecute "select nothing";
     DbCursorClose; DbClose] ∧
  final o = Sample.world0.
Proof. vm_compute. repeat split. Qed.

(** A [None] stored under the key is not told apart from a miss by the
    test [raw_hosts is None]: the database is queried and the entry is
    replaced by the fetched rows. *)
Example cached_none_is_fetched :
  let self := Sample.env (VStr "SELECT * FROM t") true (Sample.server_ok Sample.rows_h1) in
  let w := set_cache (<["mysql_mysql.yml" := NoneValue]>) Sample.world0 in
  let o := parse self "mysql.yml" true w in
  count_events is_db_event (events o) = 6 ∧
  w_cache (final o) !! "mysql_mysql.yml" = Some (RowSeq Sample.rows_h1).
Proof. vm_compute. repeat split. Qed.

(** * Further properties *)

(** ** [verify_file] *)

Lemma append_empty s : "" +:+ s = s.
Proof. reflexivity. Qed.

Lemma append_cons c s t : String c s +:+ t = String c (s +:+ t).
Proof. reflexivity. Qed.

Lemma endswith_iff s suffix : endswith s suffix = true ↔ ∃ p, s = p +:+ suffix.
Proof.
  induction s as [| c s IH]; cbn [endswith].
  - destruct (String.eqb_spec "" suffix) as [<- | Hne].
    + split; [intros _; exists ""; reflexivity | reflexivity].
    + split; [discriminate |]. intros [p Hp].
      destruct p; [rewrite append_empty in Hp; congruence | rewrite append_cons in Hp; discriminate].
  - destruct (String.eqb_spec (String c s) suffix) as [<- | Hne].
    + split; [intros _; exists ""; reflexivity | reflexivity].
    + rewrite IH. split.
      * intros [p ->]. exists (String c p). reflexivity.
      * intros [p Hp]. destruct p as [| d p].
        -- rewrite append_empty in Hp. congruence.
        -- rewrite append_cons in Hp. injection Hp as _ ->. eauto.
Qed.

(** X1.  [verify_file] never raises and leaves the state alone; it
    answers true exactly when the check of the base class passes and
    the path is some text followed by "mysql.yaml" or by "mysql.yml"
    (nothing is asked of that text: no directory separator is needed
    before the name); and it displays one message, carrying the path
    and the answer. *)
Theorem verify_file_accepts_suffix {S : Type} (super_verify_file : string → bool)
    (path : string) (s : S) :
  ∃ valid : bool,
    verify_file super_verify_file path s
    = ([Display Lvv "Verifying inventory file: {path}, Valid: {valid}"
          [AStr path; AVal (VBool valid)]], s, Ok valid) ∧
    (valid = true ↔
     super_verify_file path = true ∧
     ∃ p, path = p +:+ "mysql.yaml" ∨ path = p +:+ "mysql.yml").
Proof.
  unfold verify_file. unfold_eff. eexists. split; [reflexivity |].
  unfold endswith_any. cbn [existsb]. rewrite orb_false_r.
  destruct (super_verify_file path); [| split; [discriminate | intros [? _]; discriminate]].
  destruct (endswith path "mysql.yaml") eqn:H1; cbn [orb].
  - apply endswith_iff in H1 as [p Hp]. split; [| reflexivity]. eauto.
  - destruct (endswith path "mysql.yml") eqn:H2.
    + apply endswith_iff in H2 as [p Hp]. split; [| reflexivity]. eauto.
    + split; [discriminate |]. intros (_ & p & [Hp | Hp]).
      * assert (endswith path "mysql.yaml" = true) by (apply endswith_iff; eauto). congruence.
      * assert (endswith path "mysql.yml" = true) by (apply endswith_iff; eauto). congruence.
Qed.

(** ** [_get_raw_hosts]: what a validated fetch does *)

(** X2.  With a query that is not refused and a server on which
    connecting, opening the cursor, executing and fetching all succeed,
    [_get_raw_hosts] returns the rows [fetchall] yields, as they are.
    It connects with the five connection options, executes the text of
    the query option as it stands (neither trimmed nor upper-cased),
    closes the cursor and then the connection, and leaves the world as
    it was. *)
Theorem get_raw_hosts_returns_fetched_rows (self : Env) (w : World) (query : text)
    (rows : list RawRow) :
  db_query (options self) = VStr query →
  ¬ refused_query (VStr query) →
  srv_connect (server self) (connect_params self) = None →
  srv_cursor (server self) = None →
  srv_execute (server self) query = None →
  srv_fetchall (server self) query = Ok rows →
  _get_raw_hosts self w
  = ([DbConnect {| cp_host := db_host (options self);
                   cp_port := db_port (options self);
                   cp_user := db_user (options self);
                   cp_password := db_password (options self);
                   cp_database := db_name (options self) |};
      Display Lvv
        "Connected to database: {self.get_option('db_name')} on {self.get_option('db_host')}"
        [AStr (db_name (options self)); AStr (db_host (options self))];
      DbCursor;
      Display Lvvv "Executing query: {query}" [AVal (VStr query)];
      DbExecute query;
      DbFetchAll;
      Display Lvv "Fetched {len(raw_hosts)} rows from database"
        [AVal (VInt (Z.of_nat (length rows)))];
      DbCursorClose;
      DbClose;
      Display Lvv "Closed database connection" []],
     w, Ok rows).
Proof.
  intros Hquery Hok Hconn Hcur Hexe Hfetch.
  rewrite <- Hquery in Hok. fetch_validated self Hok q.
  assert (q = query) as -> by congruence.
  unfold_fetch. unfold_eff. fold (connect_params self).
  rewrite Hconn, Hcur, Hexe, Hfetch. destruct w. reflexivity.
Qed.

(** X3.  Once the query has passed validation, the only instance of
    [Exception] that [_get_raw_hosts] raises is the error
    "Database query failed: " followed by the text of an exception of
    the database client; that error has been displayed, and the world
    is left as it was. *)
Theorem get_raw_hosts_wraps_database_errors (self : Env) (w : World) (e : exn) :
  ¬ refused_query (db_query (options self)) →
  outcome (_get_raw_hosts self w) = Raise e →
  is_Exception e = true →
  ∃ cause,
    is_Exception cause = true ∧
    e = AnsibleError ("Database query failed: " +:+ to_native cause) ∧
    In (Display Lerror ("Database query failed: " +:+ to_native cause) [])
       (events (_get_raw_hosts self w)) ∧
    final (_get_raw_hosts self w) = w.
Proof.
  intros Hok. rewrite get_raw_hosts_world. fetch_validated self Hok query.
  unfold outcome, events.
  fetch_exits self query
    ltac:(cbn [fst snd app]; intros Hout He;
          first [ discriminate Hout
                | injection Hout as <-;
                  first [ congruence
                        | eexists; split; [exact Hexc |];
                          split; [reflexivity |]; split; [cbn; tauto | reflexivity] ] ]).
Qed.

(** X4.  When connecting fails there is no connection to release:
    [_get_raw_hosts] makes no other call to the database client, not
    even [close], and raises the wrapped error after displaying it. *)
Theorem get_raw_hosts_connect_failure (self : Env) (w : World) (cause : exn) :
  ¬ refused_query (db_query (options self)) →
  srv_connect (server self) (connect_params self) = Some cause →
  is_Exception cause = true →
  _get_raw_hosts self w
  = ([DbConnect (connect_params self);
      Display Lerror ("Database query failed: " +:+ to_native cause) []],
     w, Raise (AnsibleError ("Database query failed: " +:+ to_native cause))).
Proof.
  intros Hok Hconn Hexc. fetch_validated self Hok query.
  unfold_fetch. unfold_eff. fold (connect_params self). rewrite Hconn, Hexc.
  destruct w. reflexivity.
Qed.

(** X5.  When the statement fails, [fetchall] is never called; the
    cursor is closed, the wrapped error is displayed, and only then is
    the connection closed, before the error reaches the caller. *)
Theorem get_raw_hosts_execute_failure (self : Env) (w : World) (query : text)
    (cause : exn) :
  db_query (options self) = VStr query →
  ¬ refused_query (VStr query) →
  srv_connect (server self) (connect_params self) = None →
  srv_cursor (server self) = None →
  srv_execute (server self) query = Some cause →
  is_Exception cause = true →
  _get_raw_hosts self w
  = ([DbConnect (connect_params self);
      Display Lvv
        "Connected to database: {self.get_option('db_name')} on {self.get_option('db_host')}"
        [AStr (db_name (options self)); AStr (db_host (options self))];
      DbCursor;
      Display Lvvv "Executing query: {query}" [AVal (VStr query)];
      DbExecute query;
      DbCursorClose;
      Display Lerror ("Database query failed: " +:+ to_native cause) [];
      DbClose;
      Display Lvv "Closed database connection" []],
     w, Raise (AnsibleError ("Database query failed: " +:+ to_native cause))).
Proof.
  intros Hquery Hok Hconn Hcur Hexe Hexc.
  rewrite <- Hquery in Hok. fetch_validated self Hok q.
  assert (q = query) as -> by congruence.
  unfold_fetch. unfold_eff. fold (connect_params self).
  rewrite Hconn, Hcur, Hexe, Hexc. destruct w. reflexivity.
Qed.

(** X6.  An exception of the database client that is not an instance
    of [Exception] (an interrupt from the keyboard, an exit) leaves
    [_get_raw_hosts] as it is, neither wrapped nor displayed; the
    cursor and the connection are closed all the same, and the world is
    as before. *)
Theorem get_raw_hosts_lets_through (self : Env) (w : World) (query : text) (cause : exn) :
  db_query (options self) = VStr query →
  ¬ refused_query (VStr query) →
  srv_connect (server self) (connect_params self) = None →
  srv_cursor (server self) = None →
  srv_execute (server self) query = Some cause →
  is_Exception cause = false →
  _get_raw_hosts self w
  = ([DbConnect (connect_params self);
      Display Lvv
        "Connected to database: {self.get_option('db_name')} on {self.get_option('db_host')}"
        [AStr (db_name (options self)); AStr (db_host (options self))];
      DbCursor;
      Display Lvvv "Executing query: {query}" [AVal (VStr query)];
      DbExecute query;
      DbCursorClose;
      DbClose;
      Display Lvv "Closed database connection" []],
     w, Raise cause).
Proof.
  intros Hquery Hok Hconn Hcur Hexe Hexc.
  rewrite <- Hquery in Hok. fetch_validated self Hok q.
  assert (q = query) as -> by congruence.
  unfold_fetch. unfold_eff. fold (connect_params self).
  rewrite Hconn, Hcur, Hexe, Hexc. destruct w. reflexivity.
Qed.

(** ** What reaches the database *)

Lemma get_raw_hosts_executes (self : Env) (w : World) (q : text) :
  In (DbExecute q) (events (_get_raw_hosts self w)) →
  db_query (options self) = VStr q ∧ ¬ refused_query (VStr q).
Proof.
  unfold _get_raw_hosts, with_local, config_error, events.
  destruct (db_query (options self)) as [| b | k | query];
    try (cbn; intros [H | []]; discriminate H).
  destruct (truthy (VStr (strip query))) eqn:Ht;
    [| cbn; intros [H | []]; discriminate H].
  destruct (startswith (upper (strip query)) "SELECT") eqn:Hs;
    [| cbn; intros [H | []]; discriminate H].
  cbn [negb].
  assert (In (DbExecute q)
            (fst (fst (let '(ev, (_, s'), r) :=
                         try_finally (try_except (fetch_suite self query) fetch_handler)
                           (fetch_finally) (None, w) in (ev, s', r)))) → q = query) as Hq.
  { fetch_cases self query
      ltac:(cbn; intros Hin;
            repeat (destruct Hin as [Hin | Hin]; [try discriminate Hin |]);
            first [contradiction | congruence]). }
  intros Hin. apply Hq in Hin. subst q.
  split; [reflexivity | apply passing_tests_not_refused; assumption].
Qed.

Lemma get_raw_hosts_executes_once (self : Env) (w : World) :
  (count_events is_execute (events (_get_raw_hosts self w)) ≤ 1)%nat.
Proof.
  unfold _get_raw_hosts, with_local, config_error, events, count_events.
  destruct (db_query (options self)) as [| b | k | query]; try (cbn; lia).
  destruct (negb (truthy _)); [cbn; lia |].
  destruct (negb (startswith _ _)); [cbn; lia |].
  fetch_cases self query ltac:(cbn; lia).
Qed.

(** The events of [parse]: quiet ones around those of the fetch, if
    there is one. *)
Lemma parse_events_split (self : Env) (path : string) (flag : bool) (w : World) :
  ∃ pre post, no_db_event pre ∧ no_db_event post ∧
    (events (parse self path flag w) = pre ++ post ∨
     events (parse self path flag w) = pre ++ events (_get_raw_hosts self w) ++ post).
Proof.
  rewrite parse_run. cbn zeta.
  set (key := get_cache_key self path). set (u := cache (options self) && flag).
  destruct (parse_prelude_quiet path key u (w_cache w !! key)) as [Hpre _].
  destruct (cached_rows u (w_cache w !! key)) as [rows |].
  - pose proof (populate_no_db_event self rows w) as Hpop.
    destruct (parse_store_quiet key false rows) as [Hst _].
    destruct (_populate self rows w) as [[ev w'] r]; unfold events in *; cbn [fst snd] in *.
    exists (parse_prelude path key u (w_cache w !! key)), (parse_store key false rows ++ ev).
    repeat split; [assumption | apply no_db_event_app; assumption | left; reflexivity].
  - exists (parse_prelude path key u (w_cache w !! key)
            ++ [Display Lvv "No cached data found, querying database" []]).
    destruct (_get_raw_hosts self w) as [[ev w1] [rows | e]]; unfold events; cbn [fst snd].
    + pose proof (populate_no_db_event self rows
                    (if u then set_cache (<[key := RowSeq rows]>) w1 else w1)) as Hpop.
      destruct (parse_store_quiet key u rows) as [Hst _].
      destruct (_populate self rows _) as [[ev' w2] r]; unfold events in *; cbn [fst snd] in *.
      exists (parse_store key u rows ++ ev').
      repeat split.
      * apply no_db_event_app; [assumption | reflexivity].
      * apply no_db_event_app; assumption.
      * right. rewrite <- !app_assoc. reflexivity.
    + exists []. repeat split.
      * apply no_db_event_app; [assumption | reflexivity].
      * right. rewrite app_nil_r, <- app_assoc. reflexivity.
Qed.

(** X7.  Whatever [parse] executes on the database is the text of the
    query option, as it stands, and that text has passed validation;
    one call of [parse] executes at most one statement. *)
Theorem parse_executes_only_the_configured_query (self : Env) (path : string) (flag : bool)
    (w : World) (q : text) :
  In (DbExecute q) (events (parse self path flag w)) →
  db_query (options self) = VStr q ∧
  ¬ refused_query (VStr q) ∧
  (count_events is_execute (events (parse self path flag w)) ≤ 1)%nat.
Proof.
  destruct (parse_events_split self path flag w) as (pre & post & Hpre & Hpost & [-> | ->]).
  - intros Hin. exfalso. apply in_app_or in Hin as [Hin | Hin];
      refine (no_db_event_in _ _ _ Hin); assumption.
  - intros Hin.
    assert (In (DbExecute q) (events (_get_raw_hosts self w))) as Hfetch.
    { apply in_app_or in Hin as [Hin | Hin];
        [exfalso; refine (no_db_event_in _ _ _ Hin); assumption |].
      apply in_app_or in Hin as [Hin | Hin]; [assumption |].
      exfalso; refine (no_db_event_in _ _ _ Hin); assumption. }
    destruct (get_raw_hosts_executes self w q Hfetch) as [Hq Hok].
    repeat split; [assumption | assumption |].
    rewrite !count_events_app, (no_db_event_count pre Hpre), (no_db_event_count post Hpost).
    pose proof (get_raw_hosts_executes_once self w). lia.
Qed.

(** ** Validation looks at the head of the text only *)

Lemma rstrip_cons_nonspace c s : isspace c = false → rstrip (c :: s) = c :: rstrip s.
Proof. intros Hc. cbn [rstrip]. destruct (rstrip s); [rewrite Hc |]; reflexivity. Qed.

Lemma lstrip_append s rest : lstrip s ≠ [] → lstrip (s ++ rest) = lstrip s ++ rest.
Proof.
  induction s as [| c s IH]; [intros H; contradiction H; reflexivity |].
  cbn [app lstrip]. destruct (isspace c); [exact IH | intros _; reflexivity].
Qed.

Lemma rstrip_append s rest : rstrip s ≠ [] → ∃ more, rstrip (s ++ rest) = rstrip s ++ more.
Proof.
  induction s as [| c s IH]; [intros H; contradiction H; reflexivity |].
  destruct (rstrip s) as [| d r] eqn:Hrs.
  - cbn [rstrip]. rewrite Hrs. destruct (isspace c) eqn:Hc; [intros H; contradiction H; reflexivity |].
    intros _. exists (rstrip (s ++ rest)).
    change ((c :: s) ++ rest) with (c :: (s ++ rest)).
    rewrite rstrip_cons_nonspace by assumption. reflexivity.
  - intros _. destruct IH as [more Hmore]; [discriminate |].
    exists more. change ((c :: s) ++ rest) with (c :: (s ++ rest)).
    cbn [rstrip]. rewrite Hmore, Hrs. reflexivity.
Qed.

(** Text appended to a text that is not whitespace-only leaves its
    trimmed text at the head of the new trimmed text. *)
Lemma strip_append s rest : strip s ≠ [] → ∃ more, strip (s ++ rest) = strip s ++ more.
Proof.
  unfold strip. intros Hne.
  assert (lstrip s ≠ []) as Hl by (intros E; rewrite E in Hne; apply Hne; reflexivity).
  rewrite lstrip_append by assumption. apply rstrip_append, Hne.
Qed.

Lemma upper_begins_with_select_nonempty t : upper_begins_with_select t → t ≠ [].
Proof. intros [rest Hrest] ->. discriminate Hrest. Qed.

Lemma upper_begins_with_select_strip s rest :
  upper_begins_with_select (strip s) → upper_begins_with_select (strip (s ++ rest)).
Proof.
  intros Hb. destruct (strip_append s rest) as [more Hmore];
    [apply upper_begins_with_select_nonempty, Hb |].
  destruct Hb as [tail Htail]. unfold upper_begins_with_select.
  rewrite Hmore, upper_app, Htail.
  exists (tail ++ upper more). rewrite <- app_assoc. reflexivity.
Qed.

(** X8.  The validation of [_get_raw_hosts] looks at the head of the
    trimmed text only: a query that passes still passes with any text
    appended to it, further statements included, and the fetch then
    goes on to connect. *)
Theorem validation_ignores_what_follows (self : Env) (w : World) (query rest : text) :
  ¬ refused_query (VStr query) →
  db_query (options self) = VStr (query ++ rest) →
  ¬ refused_query (VStr (query ++ rest)) ∧
  ∃ evs, events (_get_raw_hosts self w) = DbConnect (connect_params self) :: evs.
Proof.
  intros Hok Hq.
  assert (¬ refused_query (VStr (query ++ rest))) as Hok'.
  { assert (upper_begins_with_select (strip query)) as Hb.
    { destruct (startswith (upper (strip query)) "SELECT") eqn:Hs;
        [apply startswith_select_iff, Hs |].
      exfalso. apply Hok. right. exists (strip query). split; [apply strip_is_trimmed |].
      rewrite <- startswith_select_iff. congruence. }
    apply (upper_begins_with_select_strip query rest) in Hb.
    apply passing_tests_not_refused.
    - cbn [truthy]. apply upper_begins_with_select_nonempty in Hb.
      destruct (strip (query ++ rest)); [contradiction | reflexivity].
    - apply startswith_select_iff, Hb. }
  split; [exact Hok' |].
  apply accepted_query_connects. rewrite Hq. exact Hok'.
Qed.

(** ** Who touches what *)

(** X9.  [_get_raw_hosts] leaves the cache, the inventory and the
    count of open connections exactly as it found them, however it
    ends, and calls nothing but the display and the database client. *)
Theorem get_raw_hosts_touches_only_the_database (self : Env) (w : World) :
  final (_get_raw_hosts self w) = w ∧
  forallb is_display_or_db (events (_get_raw_hosts self w)) = true ∧
  existsb is_cache_event (events (_get_raw_hosts self w)) = false ∧
  no_inventory_event (events (_get_raw_hosts self w)).
Proof.
  pose proof (get_raw_hosts_frame self w) as (_ & _ & Hkind).
  repeat split.
  - apply get_raw_hosts_world.
  - exact Hkind.
  - apply get_raw_hosts_no_cache_event.
  - exact (forallb_weaken _ _ _ display_or_db_no_inventory Hkind).
Qed.

(** X10.  [_populate] never touches the cache or a connection, whatever
    the rows and however it ends: it calls nothing but the display and
    the inventory. *)
Theorem populate_touches_only_the_inventory (self : Env) (rows : list RawRow) (w : World) :
  w_cache (final (_populate self rows w)) = w_cache w ∧
  w_open (final (_populate self rows w)) = w_open w ∧
  forallb is_display_or_inventory (events (_populate self rows w)) = true ∧
  no_db_event (events (_populate self rows w)) ∧
  existsb is_cache_event (events (_populate self rows w)) = false.
Proof.
  pose proof (populate_frame self rows w) as (Hc & Ho & Hkind).
  repeat split; try assumption.
  - apply populate_no_db_event.
  - apply populate_no_cache_event.
Qed.

(** X11.  However [_add_host] ends on a mapping row, what it has done is
    an initial part of the full sequence (registration, variables,
    compose, composed groups, keyed groups): the host is registered
    first and exactly once, no step is skipped or reordered, and no
    warning is displayed. *)
Theorem add_host_stops_in_order (self : Env) (hostname : value)
    (fields : list (string * value)) (w : World) :
  events (_add_host self hostname (RowDict fields) w)
    `prefix_of` add_host_script (strict (options self)) hostname fields ∧
  (∃ evs, events (_add_host self hostname (RowDict fields) w) = AddHost hostname "all" :: evs) ∧
  List.filter is_add_host (events (_add_host self hostname (RowDict fields) w))
  = [AddHost hostname "all"] ∧
  List.filter is_warning (events (_add_host self hostname (RowDict fields) w)) = [].
Proof.
  pose proof (add_host_frame self hostname fields w) as (_ & _ & H3 & H4 & _ & H6).
  repeat split; try assumption.
  rewrite add_host_run. cbn zeta. repeat case_match; unfold events; cbn [fst snd app]; eauto.
Qed.

(** ** Rows without a hostname *)

Lemma dict_get_absent fields key : ¬ In key (map fst fields) → dict_get fields key = VNone.
Proof.
  induction fields as [| [k v] fields IH]; [reflexivity |].
  cbn. intros Hnot. destruct (String.eqb_spec k key) as [-> | Hne]; [tauto |].
  apply IH. tauto.
Qed.

(** X12.  When every row is a mapping in which the hostname field is
    missing or falsy (no row at all included), [_populate] returns
    after one warning per row, in row order, and leaves the world,
    inventory included, as it was. *)
Theorem populate_skips_rows_without_hostname (self : Env) (rows : list RawRow) (w : World) :
  Forall (lacks_hostname (hostname_field (options self))) rows →
  _populate self rows w
  = (Display Lvvv "Using hostname field: {hostname_field}"
       [AStr (hostname_field (options self))]
     :: map (λ row, Display Lwarning "Skipping row with missing hostname field: {row}"
                      [ARow row]) rows,
     w, Ok tt).
Proof.
  intros Hrows. rewrite populate_run.
  assert (for_each (populate_row self (hostname_field (options self))) rows w
          = (map skip_warning rows, w, Ok tt)) as ->; [| reflexivity].
  induction Hrows as [| row rows (fields & -> & Hlack) _ IH]; [reflexivity |].
  rewrite for_each_cons, populate_row_skip, IH; [reflexivity |].
  destruct Hlack as [Habsent | Hfalsy];
    [rewrite dict_get_absent by assumption; reflexivity | assumption].
Qed.

(** ** [parse]: failures and what stays *)

Lemma no_inventory_event_app evs evs' :
  no_inventory_event evs → no_inventory_event evs' → no_inventory_event (evs ++ evs').
Proof. unfold no_inventory_event. intros H1 H2. rewrite forallb_app, H1, H2. reflexivity. Qed.

(** X13.  When [parse] has to fetch and the fetch raises, [parse]
    raises the same exception and nothing has happened: the world
    (cache, inventory, connections) is as before, nothing was stored in
    the cache and no call reached the inventory. *)
Theorem parse_failed_fetch_changes_nothing (self : Env) (path : string) (flag : bool)
    (w : World) (e : exn) :
  cached_rows (cache (options self) && flag) (w_cache w !! get_cache_key self path) = None →
  outcome (_get_raw_hosts self w) = Raise e →
  outcome (parse self path flag w) = Raise e ∧
  final (parse self path flag w) = w ∧
  existsb is_cache_put (events (parse self path flag w)) = false ∧
  no_inventory_event (events (parse self path flag w)).
Proof.
  intros Hnone Hraise. rewrite parse_run. cbn zeta. rewrite Hnone.
  pose proof (get_raw_hosts_world self w) as Hw.
  pose proof (get_raw_hosts_frame self w) as (_ & _ & Hkind).
  pose proof (get_raw_hosts_no_cache_event self w) as Hcache.
  destruct (_get_raw_hosts self w) as [[ev w1] [rows | e1]];
    unfold outcome, final, events in *; cbn [fst snd] in *; [discriminate |].
  injection Hraise as ->. repeat split.
  - exact Hw.
  - rewrite existsb_app, parse_prelude_no_put. cbn [existsb is_cache_put orb].
    apply no_cache_event_no_put, Hcache.
  - apply no_inventory_event_app; [apply parse_prelude_quiet |].
    unfold no_inventory_event. cbn [forallb is_inventory_event negb andb].
    exact (forallb_weaken _ _ _ display_or_db_no_inventory Hkind).
Qed.

(** X15.  Whatever [parse] does and however it ends, it leaves no
    connection open that was not open before, and the only cache entry
    it can change is the one under the key of the source: every other
    key holds what it held. *)
Theorem parse_leaves_the_rest_alone (self : Env) (path : string) (flag : bool) (w : World) :
  w_open (final (parse self path flag w)) = w_open w ∧
  ∀ key, key ≠ get_cache_key self path →
         w_cache (final (parse self path flag w)) !! key = w_cache w !! key.
Proof.
  rewrite parse_run. cbn zeta.
  set (k := get_cache_key self path). set (u := cache (options self) && flag).
  destruct (cached_rows u (w_cache w !! k)) as [rows |].
  - pose proof (populate_frame self rows w) as (Pc & Po & _).
    destruct (_populate self rows w) as [[ev w'] r]; unfold final in *; cbn [fst snd] in *.
    split; [exact Po | intros key _; rewrite Pc; reflexivity].
  - pose proof (get_raw_hosts_world self w) as Hw.
    destruct (_get_raw_hosts self w) as [[ev w1] [rows | e]];
      unfold final in *; cbn [fst snd] in *; subst w1; [| split; [reflexivity | auto]].
    pose proof (populate_frame self rows
                  (if u then set_cache (<[k := RowSeq rows]>) w else w)) as (Pc & Po & _).
    destruct (_populate self rows _) as [[ev' w2] r]; unfold final in *; cbn [fst snd] in *.
    rewrite Pc, Po. destruct u; cbn; split; try reflexivity.
    intros key Hne. apply lookup_insert_ne. congruence.
Qed.

(** X16.  A [None] stored under the key is announced as a cache hit and
    then handled as a miss: [parse] goes on to fetch from the database,
    and when the fetch returns rows they replace the [None]. *)
Theorem parse_cached_none_is_a_miss (self : Env) (path : string) (flag : bool) (w : World) :
  cache (options self) && flag = true →
  w_cache w !! get_cache_key self path = Some NoneValue →
  ∃ post,
    events (parse self path flag w)
    = [Display Lvv "Parsing inventory file: {path}" [AStr path];
       Display Lvv "Utilize cache: {utilize_cache}" [AVal (VBool true)];
       CacheGet (get_cache_key self path);
       Display Lvv "Cache hit for key: {cache_key}" [AStr (get_cache_key self path)];
       Display Lvv "No cached data found, querying database" []]
      ++ events (_get_raw_hosts self w) ++ post ∧
    match outcome (_get_raw_hosts self w) with
    | Ok rows =>
        w_cache (final (parse self path flag w)) !! get_cache_key self path
        = Some (RowSeq rows)
    | Raise e => outcome (parse self path flag w) = Raise e
    end.
Proof.
  intros Hu Hfound. rewrite parse_run. cbn zeta. rewrite Hu, Hfound. cbn [cached_rows].
  pose proof (get_raw_hosts_world self w) as Hw.
  destruct (_get_raw_hosts self w) as [[ev w1] [rows | e]];
    unfold events, outcome, final in *; cbn [fst snd] in *; subst w1.
  - pose proof (populate_frame self rows
                  (set_cache (<[get_cache_key self path := RowSeq rows]>) w)) as (Pc & _ & _).
    destruct (_populate self rows _) as [[ev' w2] r]; unfold final in *; cbn [fst snd] in *.
    eexists. split; [reflexivity |]. rewrite Pc. apply lookup_insert_eq.
  - exists []. rewrite app_nil_r. split; reflexivity.
Qed.

(** ** Errors are displayed, and only errors *)

Lemma errors_shown_quiet_prefix {S A} (pre : list Event) ev (s : S) (r : result A) :
  existsb is_error_display pre = false →
  errors_shown (ev, s, r) → errors_shown (pre ++ ev, s, r).
Proof.
  intros Hpre [H1 H2]. unfold errors_shown, events, outcome in *; cbn [fst snd] in *. split.
  - intros m Hm. apply in_or_app. right. auto.
  - rewrite existsb_app, Hpre. exact H2.
Qed.

Lemma errors_shown_ok_quiet {S A} ev (s : S) (a : A) :
  errors_shown (ev, s, Ok a) → existsb is_error_display ev = false.
Proof.
  intros [_ H2]. unfold events, outcome in H2; cbn [fst snd] in H2.
  destruct (existsb is_error_display ev); [| reflexivity].
  destruct (H2 eq_refl) as [m Hm]. discriminate.
Qed.

Lemma errors_shown_raise {S A B} ev (s : S) e :
  errors_shown (ev, s, Raise e : result A) → errors_shown (ev, s, Raise e : result B).
Proof.
  intros [H1 H2]. unfold errors_shown, events, outcome in *; cbn [fst snd] in *. split.
  - intros m [= ->]. apply H1. reflexivity.
  - intros Hex. destruct (H2 Hex) as [m [= ->]]. eauto.
Qed.

Lemma set_variables_script_no_error hostname fields :
  existsb is_error_display (set_variables_script hostname fields) = false.
Proof. induction fields as [| item fields IH]; [reflexivity | exact IH]. Qed.

Lemma add_host_no_error (self : Env) hostname fields w :
  existsb is_error_display (events (_add_host self hostname (RowDict fields) w)) = false.
Proof.
  rewrite add_host_run. cbn zeta. unfold add_host_script.
  pose proof (set_variables_script_no_error hostname fields) as Hs.
  repeat case_match; unfold events; cbn [fst snd app existsb is_error_display orb];
    rewrite existsb_app, Hs; reflexivity.
Qed.

Lemma populate_row_errors_shown (self : Env) hf row w :
  errors_shown (populate_row self hf row w).
Proof.
  rewrite populate_row_run. destruct row as [fields | v].
  - cbn zeta. destruct (truthy (dict_get fields hf)).
    + pose proof (add_host_no_error self (dict_get fields hf) fields w) as Hquiet.
      destruct (_add_host self _ _ w) as [[ev w'] [u | e]]; unfold events in Hquiet;
        cbn [fst snd] in Hquiet.
      * split; unfold events, outcome; cbn [fst snd existsb is_error_display orb].
        -- discriminate.
        -- rewrite Hquiet. discriminate.
      * destruct (is_Exception e) eqn:He;
          split; unfold events, outcome; cbn [fst snd existsb is_error_display orb].
        -- intros m [= <-]. right. apply in_or_app. right. left. reflexivity.
        -- intros _. eauto.
        -- intros m [= ->]. discriminate He.
        -- rewrite Hquiet. discriminate.
    + split; unfold events, outcome; cbn; discriminate.
  - split; unfold events, outcome; cbn [fst snd].
    + intros m [= <-]. left. reflexivity.
    + intros _. eauto.
Qed.

Lemma rows_errors_shown (self : Env) hf rows w :
  errors_shown (for_each (populate_row self hf) rows w).
Proof.
  revert w. induction rows as [| row rows IH]; intros w.
  - split; unfold events, outcome; cbn; discriminate.
  - rewrite for_each_cons.
    pose proof (populate_row_errors_shown self hf row w) as Hrow.
    destruct (populate_row self hf row w) as [[ev w'] [[] | e]]; [| exact Hrow].
    specialize (IH w').
    destruct (for_each (populate_row self hf) rows w') as [[ev' w''] r].
    apply errors_shown_quiet_prefix; [eapply errors_shown_ok_quiet, Hrow | exact IH].
Qed.

Lemma populate_errors_shown (self : Env) rows w : errors_shown (_populate self rows w).
Proof.
  rewrite populate_run.
  pose proof (rows_errors_shown self (hostname_field (options self)) rows w) as Hrows.
  destruct (for_each _ rows w) as [[ev w'] r].
  apply (errors_shown_quiet_prefix [populate_header _]); [reflexivity | exact Hrows].
Qed.

Lemma get_raw_hosts_errors_shown (self : Env) w : errors_shown (_get_raw_hosts self w).
Proof.
  unfold errors_shown, _get_raw_hosts, with_local, config_error, events, outcome.
  destruct (db_query (options self)) as [| b | k | query];
    try (cbn; split; [intros m [= <-]; left; reflexivity | eauto]).
  destruct (negb (truthy _)); [cbn; split; [intros m [= <-]; left; reflexivity | eauto] |].
  destruct (negb (startswith _ _));
    [cbn; split; [intros m [= <-]; left; reflexivity | eauto] |].
  fetch_exits self query
    ltac:(cbn [fst snd app existsb is_error_display orb]; split;
          [ intros m Hm; first [ discriminate Hm
                               | injection Hm as <-; cbn; tauto
                               | injection Hm as ->; discriminate Hexc ]
          | first [ discriminate | intros _; eauto ] ]).
Qed.

Lemma errors_shown_iff {S A} (o : list Event * S * result A) :
  errors_shown o →
  (∀ m, outcome o = Raise (AnsibleError m) → In (Display Lerror m []) (events o)) ∧
  (existsb is_error_display (events o) = true ↔ ∃ m, outcome o = Raise (AnsibleError m)).
Proof.
  intros [H1 H2]. split; [exact H1 |]. split; [exact H2 |].
  intros [m Hm]. specialize (H1 m Hm).
  apply existsb_exists. exists (Display Lerror m []). split; [assumption | reflexivity].
Qed.

(** X17.  [_get_raw_hosts] and [_populate] display an error exactly
    when they raise an [AnsibleError] (a refused query or a wrapped
    database failure for the one, a wrapped failure of a row for the
    other), and the message displayed is the message raised: no such
    error is silent, and no error is displayed by a call that returns or
    that lets another exception through. *)
Theorem fetch_and_populate_display_their_errors (self : Env) (rows : list RawRow)
    (w : World) :
  ((∀ m, outcome (_get_raw_hosts self w) = Raise (AnsibleError m) →
         In (Display Lerror m []) (events (_get_raw_hosts self w))) ∧
   (existsb is_error_display (events (_get_raw_hosts self w)) = true
    ↔ ∃ m, outcome (_get_raw_hosts self w) = Raise (AnsibleError m))) ∧
  ((∀ m, outcome (_populate self rows w) = Raise (AnsibleError m) →
         In (Display Lerror m []) (events (_populate self rows w))) ∧
   (existsb is_error_display (events (_populate self rows w)) = true
    ↔ ∃ m, outcome (_populate self rows w) = Raise (AnsibleError m))).
Proof.
  split; apply errors_shown_iff;
    [apply get_raw_hosts_errors_shown | apply populate_errors_shown].
Qed.

Lemma accepted_query_iff (q : value) : accepted_query q ↔ ¬ refused_query q.
Proof.
  destruct q as [| b | n | s]; try (simpl; tauto).
  split.
  - intros (t & Htrim & Hforms) Href.
    apply upper_begins_with_select_forms in Hforms.
    apply trimmed_of_strip in Htrim. subst t.
    destruct Href as [Hws | (t' & Htrim' & Hsel)].
    + apply strip_empty_iff in Hws.
      apply upper_begins_with_select_nonempty in Hforms. contradiction.
    + apply trimmed_of_strip in Htrim'. subst t'. contradiction.
  - intros Hok. exists (strip s). split; [apply strip_is_trimmed |].
    apply upper_begins_with_select_forms.
    destruct (startswith (upper (strip s)) "SELECT") eqn:Hs;
      [apply startswith_select_iff, Hs |].
    exfalso. apply Hok. right. exists (strip s). split; [apply strip_is_trimmed |].
    rewrite <- startswith_select_iff. congruence.
Qed.

(** X18.  The two tests of [_get_raw_hosts] decide exactly this: the
    fetch goes on to call [connect], with the connection options, if
    and only if the query option is a text whose trimmed text begins
    with S, s or the long s, then E or e, L or l, E or e, C or c, and
    then T, t or the t with diaeresis; these are the values that are
    not refused.  Among them are all the texts that begin with SELECT
    in some mix of upper-case and lower-case letters, and among ASCII
    texts no others. *)
Theorem validation_decides_connect (self : Env) (w : World) :
  ((∃ evs, events (_get_raw_hosts self w) = DbConnect (connect_params self) :: evs)
   ↔ accepted_query (db_query (options self))) ∧
  (accepted_query (db_query (options self)) ↔ ¬ refused_query (db_query (options self))) ∧
  (∀ t, begins_with_select t → begins_with_forms SELECT_forms t) ∧
  (∀ t, Forall (λ c, (c < 128)%N) t → begins_with_forms SELECT_forms t →
        begins_with_select t).
Proof.
  split; [| split; [apply accepted_query_iff | split]].
  - rewrite accepted_query_iff. split; [| apply accepted_query_connects].
    intros [evs Hev] Href.
    destruct (refused_query_raises self w Href) as (error & _ & Hrun).
    rewrite Hrun in Hev. discriminate Hev.
  - intros t Hb. apply upper_begins_with_select_forms, begins_with_select_upper, Hb.
  - intros t Hascii Hb.
    apply upper_begins_with_select_ascii; [assumption |].
    apply upper_begins_with_select_forms, Hb.
Qed.

(** ** Instances *)

Lemma get_raw_hosts_returns_fetched_rows_witness :
  let self := Sample.env (VStr "  select * from t ") false (Sample.server_ok Sample.rows_h1) in
  outcome (_get_raw_hosts self Sample.world0) = Ok Sample.rows_h1 ∧
  In (DbExecute "  select * from t ") (events (_get_raw_hosts self Sample.world0)).
Proof.
  intros self.
  rewrite (get_raw_hosts_returns_fetched_rows self Sample.world0 "  select * from t "
             Sample.rows_h1 eq_refl
             (passing_tests_not_refused "  select * from t " eq_refl eq_refl)
             eq_refl eq_refl eq_refl eq_refl).
  split; [reflexivity | simpl; tauto].
Defined.

Lemma get_raw_hosts_wraps_database_errors_witness :
  let self := Sample.env (VStr "select nothing") false Sample.server_bad_sql in
  ∃ cause,
    is_Exception cause = true ∧
    AnsibleError "Database query failed: syntax error"
    = AnsibleError ("Database query failed: " +:+ to_native cause) ∧
    In (Display Lerror ("Database query failed: " +:+ to_native cause) [])
       (events (_get_raw_hosts self Sample.world0)) ∧
    final (_get_raw_hosts self Sample.world0) = Sample.world0.
Proof.
  intros self.
  apply (get_raw_hosts_wraps_database_errors self Sample.world0).
  - apply (passing_tests_not_refused "select nothing"); reflexivity.
  - reflexivity.
  - reflexivity.
Defined.

Lemma get_raw_hosts_connect_failure_witness :
  let self := Sample.env (VStr "SELECT 1") false Sample.server_down in
  _get_raw_hosts self Sample.world0
  = ([DbConnect (connect_params self);
      Display Lerror "Database query failed: Can't connect to MySQL server" []],
     Sample.world0,
     Raise (AnsibleError "Database query failed: Can't connect to MySQL server")).
Proof.
  intros self.
  apply (get_raw_hosts_connect_failure self Sample.world0
           (PyException "OperationalError" "Can't connect to MySQL server")).
  - apply (passing_tests_not_refused "SELECT 1"); reflexivity.
  - reflexivity.
  - reflexivity.
Defined.

Lemma get_raw_hosts_execute_failure_witness :
  let self := Sample.env (VStr "select nothing") false Sample.server_bad_sql in
  outcome (_get_raw_hosts self Sample.world0)
  = Raise (AnsibleError "Database query failed: syntax error") ∧
  count_events (fun e => match e with DbFetchAll => true | _ => false end)
    (events (_get_raw_hosts self Sample.world0)) = 0.
Proof.
  intros self.
  rewrite (get_raw_hosts_execute_failure self Sample.world0 "select nothing"
             (PyException "ProgrammingError" "syntax error") eq_refl
             (passing_tests_not_refused "select nothing" eq_refl eq_refl)
             eq_refl eq_refl eq_refl eq_refl).
  split; reflexivity.
Defined.

Lemma parse_executes_only_the_configured_query_witness :
  let self := Sample.env (VStr "SELECT * FROM t") false (Sample.server_ok Sample.rows_h1) in
  db_query (options self) = VStr "SELECT * FROM t" ∧
  ¬ refused_query (VStr "SELECT * FROM t") ∧
  (count_events is_execute (events (parse self "mysql.yml" true Sample.world0)) ≤ 1)%nat.
Proof.
  intros self.
  apply (parse_executes_only_the_configured_query self "mysql.yml" true Sample.world0).
  vm_compute. tauto.
Defined.

Lemma validation_ignores_what_follows_witness :
  let self := Sample.env (VStr "SELECT 1; DROP TABLE x") false (Sample.server_ok []) in
  ¬ refused_query (VStr "SELECT 1; DROP TABLE x") ∧
  ∃ evs, events (_get_raw_hosts self Sample.world0) = DbConnect (connect_params self) :: evs.
Proof.
  intros self.
  apply (validation_ignores_what_follows self Sample.world0 "SELECT 1" "; DROP TABLE x").
  - apply (passing_tests_not_refused "SELECT 1"); reflexivity.
  - reflexivity.
Defined.

Lemma populate_skips_rows_without_hostname_witness :
  let self := Sample.env (VStr "SELECT 1") false (Sample.server_ok []) in
  _populate self Sample.rows_nameless Sample.world0
  = (Display Lvvv "Using hostname field: {hostname_field}" [AStr "hostname"]
     :: map (λ row, Display Lwarning "Skipping row with missing hostname field: {row}"
                      [ARow row]) Sample.rows_nameless,
     Sample.world0, Ok tt).
Proof.
  intros self.
  apply (populate_skips_rows_without_hostname self Sample.rows_nameless Sample.world0).
  repeat constructor; eexists; (split; [reflexivity |]).
  - left. simpl. intros [E | []]. discriminate E.
  - right. reflexivity.
  - right. reflexivity.
Defined.

Lemma parse_failed_fetch_changes_nothing_witness :
  let self := Sample.env (VStr "SELECT 1") true Sample.server_down in
  outcome (parse self "mysql.yml" true Sample.world0)
  = Raise (AnsibleError "Database query failed: Can't connect to MySQL server") ∧
  final (parse self "mysql.yml" true Sample.world0) = Sample.world0 ∧
  existsb is_cache_put (events (parse self "mysql.yml" true Sample.world0)) = false ∧
  no_inventory_event (events (parse self "mysql.yml" true Sample.world0)).
Proof.
  intros self.
  apply (parse_failed_fetch_changes_nothing self "mysql.yml" true Sample.world0); reflexivity.
Defined.

Lemma parse_cached_none_is_a_miss_witness :
  let self := Sample.env (VStr "SELECT * FROM t") true (Sample.server_ok Sample.rows_h1) in
  w_cache (final (parse self "mysql.yml" true Sample.world_cached_none))
  !! get_cache_key self "mysql.yml" = Some (RowSeq Sample.rows_h1).
Proof.
  intros self.
  destruct (parse_cached_none_is_a_miss self "mysql.yml" true Sample.world_cached_none
              eq_refl eq_refl) as (post & _ & Hstored).
  exact Hstored.
Defined.

Lemma get_raw_hosts_lets_through_witness :
  outcome (_get_raw_hosts Sample.env_interrupted Sample.world0)
  = Raise (PyBaseException "KeyboardInterrupt" "") ∧
  w_open (final (_get_raw_hosts Sample.env_interrupted Sample.world0)) = 0 ∧
  existsb is_error_display (events (_get_raw_hosts Sample.env_interrupted Sample.world0))
  = false.
Proof.
  rewrite (get_raw_hosts_lets_through Sample.env_interrupted Sample.world0
             "SELECT * FROM mydb;" (PyBaseException "KeyboardInterrupt" "") eq_refl
             (passing_tests_not_refused "SELECT * FROM mydb;" eq_refl eq_refl)
             eq_refl eq_refl eq_refl eq_refl).
  repeat split.
Defined.

(** ** [_populate]: what [except Exception] lets through *)

(** X19.  When the [try] suite of a row raises an exception that is not
    an instance of [Exception], [_populate] stops there and lets it
    through as it is: it is not wrapped, no error is displayed, the
    rows after it are not processed, and what was done so far stays. *)
Theorem populate_lets_through (self : Env) (pre post : list RawRow) (row : RawRow)
    (w w1 w2 : World) (ev1 ev2 : list Event) (e : exn) :
  _populate self pre w = (ev1, w1, Ok tt) →
  populate_suite self (hostname_field (options self)) row w1 = (ev2, w2, Raise e) →
  is_Exception e = false →
  _populate self (pre ++ row :: post) w = (ev1 ++ ev2, w2, Raise e).
Proof.
  intros Hpre Hsuite Hexc.
  rewrite populate_run in *. rewrite for_each_app.
  destruct (for_each _ pre w) as [[ev w0] r]. injection Hpre as <- <- ->.
  rewrite for_each_cons. unfold populate_row at 1, try_except. rewrite Hsuite, Hexc.
  reflexivity.
Qed.

Lemma populate_lets_through_witness :
  outcome (_populate Sample.env_interrupted Sample.rows_three Sample.world0)
  = Raise (PyBaseException "KeyboardInterrupt" "") ∧
  InventoryData.hosts
    (w_inventory (final (_populate Sample.env_interrupted Sample.rows_three Sample.world0)))
  = [VStr "h1"; VStr "h2"].
Proof.
  pose proof (populate_lets_through Sample.env_interrupted
                [RowDict [("hostname", VStr "h1"); ("env", VStr "PROD")]]
                [RowDict [("hostname", VStr "h3"); ("env", VStr "DEV")]]
                (RowDict [("hostname", VStr "h2"); ("env", VStr "QA")])
                Sample.world0 _ _ _ _ (PyBaseException "KeyboardInterrupt" "")
                eq_refl eq_refl eq_refl) as Hrun.
  change (_populate Sample.env_interrupted Sample.rows_three Sample.world0) with
    (_populate Sample.env_interrupted
       ([RowDict [("hostname", VStr "h1"); ("env", VStr "PROD")]]
        ++ RowDict [("hostname", VStr "h2"); ("env", VStr "QA")]
           :: [RowDict [("hostname", VStr "h3"); ("env", VStr "DEV")]])
       Sample.world0).
  rewrite Hrun. split; reflexivity.
Defined.
